(** * simple-photo-management: the image conversion and tagging worker

    A shallow embedding of [spm_worker/process_images.py] (class
    [ProcessImages]) and the properties of its conversion pipeline.

    Conventions of the embedding
    - A Python [str] is a Rocq [string] holding its UTF-8 bytes, so
      [image_path.encode()] is the identity on the representation.
    - The file system, [pyexiv2] and [PIL] are modelled by a small world:
      a finite map from directory paths to directories, a directory being
      the list of its entries in [os.listdir] order.
    - A file is addressed by the path string of its directory and its
      name; a library call that fails leaves the files as they are.
    - Python code that can raise runs in a state-and-exception monad [M]
      that also records the calls made and the values yielded.
    - The generator is run to exhaustion; what a consumer has seen after
      pulling k results is the trace up to the k-th [Yield].
    - [print] calls are not modelled. *)

From Stdlib Require Import ZArith String Ascii List Bool Lia.
From stdpp Require Import base option list strings gmap finite pretty.

Local Open Scope string_scope.
Local Open Scope list_scope.
Local Open Scope Z_scope.

(** ** hashlib.sha1

    SHA-1 (FIPS 180-4) over 32-bit words held in [Z], the wrap-around
    written out with [mod 2^32]. *)
Module SHA1.

Definition w32 (x : Z) : Z := x mod 2 ^ 32.

Definition rotl (n x : Z) : Z :=
  w32 (Z.lor (Z.shiftl x n) (Z.shiftr x (32 - n))).

Definition lnot32 (x : Z) : Z := Z.lxor x 0xFFFFFFFF.

Definition digest_state : Type := Z * Z * Z * Z * Z.

Definition h_init : digest_state :=
  (0x67452301, 0xEFCDAB89, 0x98BADCFE, 0x10325476, 0xC3D2E1F0).

Definition bytes_of_string (s : string) : list Z :=
  map (fun a => Z.of_N (N_of_ascii a)) (list_ascii_of_string s).

(** the big-endian 64-bit encoding of the message length in bits *)
Definition length_bytes (bits : Z) : list Z :=
  map (fun i => Z.shiftr bits (8 * i) mod 256) [7; 6; 5; 4; 3; 2; 1; 0].

Definition pad (msg : list Z) : list Z :=
  let len := Z.of_nat (length msg) in
  msg ++ [0x80] ++ repeat 0 (Z.to_nat ((55 - len) mod 64))
      ++ length_bytes (8 * len).

Fixpoint words_of_bytes (l : list Z) : list Z :=
  match l with
  | a :: b :: c :: d :: r =>
      (a * 2 ^ 24 + b * 2 ^ 16 + c * 2 ^ 8 + d) :: words_of_bytes r
  | _ => []
  end.

(** message schedule, most recent word first *)
Fixpoint expand (n : nat) (rw : list Z) : list Z :=
  match n with
  | O => rw
  | S n' =>
      let x := Z.lxor (Z.lxor (nth 2 rw 0) (nth 7 rw 0))
                      (Z.lxor (nth 13 rw 0) (nth 15 rw 0)) in
      expand n' (rotl 1 x :: rw)
  end.

Definition schedule (block : list Z) : list Z :=
  rev (expand 64 (rev block)).

Definition round (t : nat) (s : digest_state) (wt : Z) : digest_state :=
  let '(a, b, c, d, e) := s in
  let '(f, k) :=
    if (t <? 20)%nat then
      (Z.lor (Z.land b c) (Z.land (lnot32 b) d), 0x5A827999)
    else if (t <? 40)%nat then
      (Z.lxor (Z.lxor b c) d, 0x6ED9EBA1)
    else if (t <? 60)%nat then
      (Z.lor (Z.lor (Z.land b c) (Z.land b d)) (Z.land c d), 0x8F1BBCDC)
    else
      (Z.lxor (Z.lxor b c) d, 0xCA62C1D6) in
  (w32 (rotl 5 a + f + e + k + wt), a, rotl 30 b, c, d).

Fixpoint rounds (t : nat) (ws : list Z) (s : digest_state) : digest_state :=
  match ws with
  | [] => s
  | wt :: ws' => rounds (S t) ws' (round t s wt)
  end.

Definition compress (h : digest_state) (block : list Z) : digest_state :=
  let '(h0, h1, h2, h3, h4) := h in
  let '(a, b, c, d, e) := rounds 0 (schedule block) h in
  (w32 (h0 + a), w32 (h1 + b), w32 (h2 + c), w32 (h3 + d), w32 (h4 + e)).

Fixpoint process (fuel : nat) (ws : list Z) (h : digest_state)
  : digest_state :=
  match fuel, ws with
  | S fuel', _ :: _ => process fuel' (skipn 16 ws) (compress h (firstn 16 ws))
  | _, _ => h
  end.

Definition digest (msg : list Z) : digest_state :=
  let ws := words_of_bytes (pad msg) in
  process (length ws) ws h_init.

Definition hex_digits : list ascii :=
  ["0"; "1"; "2"; "3"; "4"; "5"; "6"; "7";
   "8"; "9"; "a"; "b"; "c"; "d"; "e"; "f"]%char.

Definition hex_digit (n : Z) : ascii := nth (Z.to_nat n) hex_digits "0"%char.

Definition nibble (i x : Z) : ascii := hex_digit (Z.shiftr x (4 * i) mod 16).

Definition hex32 (x : Z) : string :=
  String (nibble 7 x) (String (nibble 6 x) (String (nibble 5 x)
 (String (nibble 4 x) (String (nibble 3 x) (String (nibble 2 x)
 (String (nibble 1 x) (String (nibble 0 x) EmptyString))))))).

(** [hashlib.sha1(s.encode()).hexdigest()] *)
Definition hexdigest (s : string) : string :=
  let '(h0, h1, h2, h3, h4) := digest (bytes_of_string s) in
  hex32 h0 +:+ hex32 h1 +:+ hex32 h2 +:+ hex32 h3 +:+ hex32 h4.

End SHA1.

(** ** Python strings and os.path *)

(** [str.lower()].  Only the ASCII letters are mapped; on the allow-list
    test of [__init__] this agrees with Python, because no character
    outside ASCII lower-cases to a string of the letters used there. *)
Definition lower_ascii (a : ascii) : ascii :=
  let n := N_of_ascii a in
  if ((65 <=? n) && (n <=? 90))%N then ascii_of_N (n + 32) else a.

Fixpoint lower (s : string) : string :=
  match s with
  | EmptyString => EmptyString
  | String a s' => String (lower_ascii a) (lower s')
  end.

(** [c in s] for a one-character [c] *)
Fixpoint has_char (c : ascii) (s : string) : bool :=
  match s with
  | EmptyString => false
  | String a s' => Ascii.eqb a c || has_char c s'
  end.

(** every character of [s] is one of [0-9a-f] *)
Fixpoint all_hex (s : string) : bool :=
  match s with
  | EmptyString => true
  | String a s' => has_char a "0123456789abcdef" && all_hex s'
  end.

(** [s.rfind(c)] for a one-character [c]: the last index of [c], or -1 *)
Fixpoint rfind (c : ascii) (s : string) : Z :=
  match s with
  | EmptyString => -1
  | String a s' =>
      let r := rfind c s' in
      if 0 <=? r then r + 1 else if Ascii.eqb a c then 0 else -1
  end.

(** the slices [p[:n]] and [p[n:]] *)
Fixpoint str_take (n : nat) (p : string) : string :=
  match n, p with
  | S n', String a p' => String a (str_take n' p')
  | _, _ => EmptyString
  end.

Fixpoint str_drop (n : nat) (p : string) : string :=
  match n, p with
  | S n', String _ p' => str_drop n' p'
  | _, _ => p
  end.

(** the [while filenameIndex < dotIndex] loop of [genericpath._splitext];
    [None] when the loop falls through *)
Fixpoint splitext_loop (fuel : nat) (p : string) (dotIndex filenameIndex : Z)
  : option (string * string) :=
  match fuel with
  | O => None
  | S fuel' =>
      if filenameIndex <? dotIndex then
        if match String.get (Z.to_nat filenameIndex) p with
           | Some c => Ascii.eqb c "."
           | None => false
           end
        then splitext_loop fuel' p dotIndex (filenameIndex + 1)
        else Some (str_take (Z.to_nat dotIndex) p,
                   str_drop (Z.to_nat dotIndex) p)
      else None
  end.

(** [os.path.splitext] (posixpath: sep "/", no altsep, extsep ".") *)
Definition splitext (p : string) : string * string :=
  let sepIndex := rfind "/" p in
  let dotIndex := rfind "." p in
  if sepIndex <? dotIndex then
    match splitext_loop (Z.to_nat (dotIndex - sepIndex)) p dotIndex
                        (sepIndex + 1) with
    | Some r => r
    | None => (p, "")
    end
  else (p, "").

(** ** Values, exceptions and the records of the worker *)

(** the Python values a caller can pass to the constructor *)
Inductive pyval :=
| PyNone
| PyBool (b : bool)
| PyInt (n : Z)
| PyStr (s : string).

(** the exception classes raised in the model; all derive from
    [Exception], so every [except (..., Exception)] clause catches them *)
Inductive exn :=
| AttributeError
| TypeError
| FileNotFoundError
| IsADirectoryError
| UnidentifiedImageError
| Exiv2Error.

(** a value that is either a proper result or Python's [False] *)
Inductive orFalse (A : Type) :=
| Value (a : A)
| PyFalse.
Arguments Value {A} a.
Arguments PyFalse {A}.

(** [{'iptc_key': ..., 'tags': [...]}] *)
Record TagData := { iptc_key : string; tags : list string }.

(** [{'orig_path': ..., 'processed_path': ..., 'filename': ...}] *)
Record ConversionData :=
  { orig_path : string; processed_path : string; filename : string }.

(** the dict yielded by the generator *)
Record ProcessedData :=
  { conversion_data : orFalse ConversionData; tag_data : TagData }.

Record ProcessImages :=
  { ORIGINAL_IMAGE_PATHS : list string;
    PROCESSED_IMAGE_PATH : string;
    CONVERSION_FORMAT : string;
    retag : bool }.

Definition ALLOWED_CONVERSION_FORMATS : list string :=
  ["jpeg"; "jpg"; "tiff"; "tif"; "png"].

(** [x in l] for a list of strings *)
Definition str_in (x : string) (l : list string) : bool :=
  existsb (String.eqb x) l.

(** [ProcessImages.__init__]; [inl] is the exception raised.
    [conversion_format.lower()] exists only on a [str]. *)
Definition __init__ (image_paths : list string) (processed_image_path : string)
    (conversion_format : pyval) (retag : pyval) : exn + ProcessImages :=
  match conversion_format with
  | PyStr fmt =>
      inr {| ORIGINAL_IMAGE_PATHS := image_paths;
             PROCESSED_IMAGE_PATH := processed_image_path;
             CONVERSION_FORMAT :=
               if str_in (lower fmt) ALLOWED_CONVERSION_FORMATS
               then fmt else "jpg";
             retag := match retag with PyBool b => b | _ => false end |}
  | _ => inl AttributeError
  end.

(** ** The world: file system, image libraries, the generator's dict *)

(** What the image libraries can do with a file:
    [decodable]: [PIL] opens the file as an image and encodes it again;
    on a file where it is [false], [PIL.Image.open] raises (an image that
    opens and then fails while it is encoded is not part of the model);
    [iptc]: the IPTC entries [pyexiv2] reads, key by key with the raw
    values, [None] when [meta.read()] raises;
    [meta_writable]: [meta.write()] succeeds on it. *)
Record image :=
  { decodable : bool;
    iptc : option (list (string * list string));
    meta_writable : bool }.

Inductive entry :=
| File (img : image)
| SubDir.

(** a directory: its entries in [os.listdir] order *)
Abbreviation directory := (list (string * entry)).

Fixpoint dir_lookup (name : string) (d : directory) : option entry :=
  match d with
  | [] => None
  | (n, e) :: d' => if String.eqb n name then Some e else dir_lookup name d'
  end.

(** create or replace the entry called [name] *)
Fixpoint dir_put (name : string) (e : entry) (d : directory) : directory :=
  match d with
  | [] => [(name, e)]
  | (n, e') :: d' =>
      if String.eqb n name then (n, e) :: d' else (n, e') :: dir_put name e d'
  end.

(** the values of [key] replaced where the key stands, or the key added
    at the end *)
Fixpoint iptc_put (key : string) (values : list string)
    (l : list (string * list string)) : list (string * list string) :=
  match l with
  | [] => [(key, values)]
  | (k, v) :: l' =>
      if String.eqb k key then (k, values) :: l'
      else (k, v) :: iptc_put key values l'
  end.

(** [meta[key] = IptcTag(key, values)] on the entries of one image: the
    values given replace those of the key; with no value given, nothing
    is left of the key *)
Definition iptc_set (key : string) (values : list string)
    (l : list (string * list string)) : list (string * list string) :=
  match values with
  | [] => List.filter (fun kv => negb (String.eqb (fst kv) key)) l
  | _ :: _ => iptc_put key values l
  end.

Fixpoint iptc_get (key : string) (l : list (string * list string))
  : option (list string) :=
  match l with
  | [] => None
  | (k, v) :: l' => if String.eqb k key then Some v else iptc_get key l'
  end.

(** the file [PIL] writes: a readable image without IPTC entries *)
Definition converted_image : image :=
  {| decodable := true; iptc := Some []; meta_writable := true |}.

Definition initial_processed_data : ProcessedData :=
  {| conversion_data :=
       Value {| orig_path := ""; processed_path := ""; filename := "" |};
     tag_data := {| iptc_key := ""; tags := [] |} |}.

(** [fs]: the directories by path.  [processed_data]: the one dict object
    the generator creates, mutates and yields again and again. *)
Record world :=
  { fs : gmap string directory;
    processed_data : ProcessedData }.

Definition lookup_entry (w : world) (path name : string) : option entry :=
  d ← fs w !! path; dir_lookup name d.

Definition lookup_image (w : world) (path name : string) : option image :=
  match lookup_entry w path name with
  | Some (File img) => Some img
  | _ => None
  end.

(** the calls the pipeline makes, and what it yields.  [Yield d] carries
    the content of the shared dict at the moment it is handed out. *)
Inductive event :=
| Call_convert_format
    (orig_filename new_filename path save_path conversion_format : string)
| Call_read_iptc_tags (filename path : string)
| Call_write_iptc_tags (path filename : string) (tag_data : TagData)
| Yield (d : ProcessedData).

(** ** The monad of Python code: state, exceptions, emitted events *)

Inductive result (A : Type) :=
| Ok (a : A)
| Raise (e : exn).
Arguments Ok {A} a.
Arguments Raise {A} e.

Definition M (A : Type) : Type := world -> result A * world * list event.

Definition ret {A} (a : A) : M A := fun w => (Ok a, w, []).

Definition bind {A B} (m : M A) (k : A -> M B) : M B := fun w =>
  match m w with
  | (Ok a, w1, ev1) => let '(r, w2, ev2) := k a w1 in (r, w2, ev1 ++ ev2)
  | (Raise e, w1, ev1) => (Raise e, w1, ev1)
  end.

Definition raise {A} (e : exn) : M A := fun w => (Raise e, w, []).

(** [try: m  except (.., Exception): h] *)
Definition try_except {A} (m : M A) (h : exn -> M A) : M A := fun w =>
  match m w with
  | (Ok a, w1, ev1) => (Ok a, w1, ev1)
  | (Raise e, w1, ev1) => let '(r, w2, ev2) := h e w1 in (r, w2, ev1 ++ ev2)
  end.

Definition emit (ev : event) : M unit := fun w => (Ok tt, w, [ev]).
Definition get_world : M world := fun w => (Ok w, w, []).

Declare Scope py_scope.
Delimit Scope py_scope with py.
Notation "x <- c ;; k" := (bind c (fun x => k))
  (at level 100, c at next level, right associativity) : py_scope.
Notation "c ;; k" := (bind c (fun _ => k))
  (at level 100, right associativity) : py_scope.
Local Open Scope py_scope.

(** [for x in l: body x] *)
Fixpoint for_ {A} (l : list A) (body : A -> M unit) : M unit :=
  match l with
  | [] => ret tt
  | x :: l' => body x ;; for_ l' body
  end.

(** ** os, pyexiv2 and PIL on the world *)

Definition os_listdir (path : string) : M (list string) := fun w =>
  match fs w !! path with
  | Some d => (Ok (map fst d), w, [])
  | None => (Raise FileNotFoundError, w, [])
  end.

(** [os.path.isdir(os.path.join(path, name))]; never raises *)
Definition os_path_isdir (w : world) (path name : string) : bool :=
  match lookup_entry w path name with
  | Some SubDir => true
  | _ => false
  end.

(** [meta = pyexiv2.ImageMetadata(url); meta.read()] and the raw values
    of every key of [meta.iptc_keys] *)
Definition pyexiv2_read (path name : string)
  : M (list (string * list string)) := fun w =>
  match lookup_image w path name with
  | Some img =>
      match iptc img with
      | Some l => (Ok l, w, [])
      | None => (Raise Exiv2Error, w, [])
      end
  | None => (Raise Exiv2Error, w, [])
  end.

(** [meta.read(); meta[key] = pyexiv2.IptcTag(key, values); meta.write()] *)
Definition pyexiv2_write (path name key : string) (values : list string)
  : M unit := fun w =>
  match fs w !! path with
  | Some d =>
      match dir_lookup name d with
      | Some (File img) =>
          match iptc img with
          | Some l =>
              if meta_writable img then
                let img' := {| decodable := decodable img;
                               iptc := Some (iptc_set key values l);
                               meta_writable := true |} in
                (Ok tt,
                 {| fs := <[path := dir_put name (File img') d]> (fs w);
                    processed_data := processed_data w |}, [])
              else (Raise Exiv2Error, w, [])
          | None => (Raise Exiv2Error, w, [])
          end
      | _ => (Raise Exiv2Error, w, [])
      end
  | None => (Raise Exiv2Error, w, [])
  end.

(** [Image.open(join(path, name)).save(join(save_path, outfile),
    quality=100)]: the source must decode, the target directory must
    exist and the target name must not be a directory.  The names are
    names of entries of the two directories (no slash), and the target
    name ends in an extension [PIL] can write, as the names a pipeline
    built by the constructor asks for do. *)
Definition PIL_open_save (path name save_path outfile : string)
  : M unit := fun w =>
  match lookup_image w path name with
  | Some img =>
      if decodable img then
        match fs w !! save_path with
        | Some d =>
            match dir_lookup outfile d with
            | Some SubDir => (Raise IsADirectoryError, w, [])
            | _ =>
                (Ok tt,
                 {| fs := <[save_path :=
                              dir_put outfile (File converted_image) d]> (fs w);
                    processed_data := processed_data w |}, [])
            end
        | None => (Raise FileNotFoundError, w, [])
        end
      else (Raise UnidentifiedImageError, w, [])
  | None => (Raise FileNotFoundError, w, [])
  end.

(** ** The methods of ProcessImages *)

Definition Keywords : string := "Iptc.Application2.Keywords".
Definition copied_marker : string := "SPM: TAGS COPIED FROM ORIGINAL".

(** [ProcessImages.read_iptc_tags]: the records of the image, one per IPTC
    key, the single empty record when it has none, [False] on any error *)
Definition read_iptc_tags (filename path : string)
  : M (orFalse (list TagData)) :=
  emit (Call_read_iptc_tags filename path) ;;
  try_except
    (iptc_keys <- pyexiv2_read path filename ;;
     match iptc_keys with
     | _ :: _ =>
         ret (Value (map (fun kv => {| iptc_key := fst kv; tags := snd kv |})
                         iptc_keys))
     | [] => ret (Value [ {| iptc_key := ""; tags := [] |} ])
     end)
    (fun _ => ret PyFalse).

(** [ProcessImages.write_iptc_tags] *)
Definition write_iptc_tags (path filename : string) (tag_data : TagData)
  : M bool :=
  emit (Call_write_iptc_tags path filename tag_data) ;;
  try_except
    (if String.eqb (iptc_key tag_data) Keywords then
       pyexiv2_write path filename (iptc_key tag_data) (tags tag_data) ;;
       ret true
     else ret false)
    (fun _ => ret false).

(** [ProcessImages.convert_format] *)
Definition convert_format
    (orig_filename new_filename path save_path conversion_format : string)
  : M (orFalse ConversionData) :=
  emit (Call_convert_format orig_filename new_filename path save_path
                            conversion_format) ;;
  try_except
    (let outfile := fst (splitext new_filename) +:+ "." +:+ conversion_format in
     PIL_open_save path orig_filename save_path outfile ;;
     ret (Value {| orig_path := path; processed_path := save_path;
                   filename := outfile |}))
    (fun _ => ret PyFalse).

(** [ProcessImages.get_filenames]: the names of the entries of
    [directory] that are not directories, [False] when it cannot be listed *)
Definition get_filenames (directory : string) : M (orFalse (list string)) :=
  try_except
    (names <- os_listdir directory ;;
     w <- get_world ;;
     ret (Value (List.filter (fun n => negb (os_path_isdir w directory n))
                             names)))
    (fun _ => ret PyFalse).

(** assignments to the two keys of the shared dict *)
Definition set_conversion_data (c : orFalse ConversionData) : M unit :=
  fun w =>
    (Ok tt,
     {| fs := fs w;
        processed_data := {| conversion_data := c;
                             tag_data := tag_data (processed_data w) |} |},
     []).

Definition set_tag_data (t : TagData) : M unit := fun w =>
  (Ok tt,
   {| fs := fs w;
      processed_data :=
        {| conversion_data := conversion_data (processed_data w);
           tag_data := t |} |},
   []).

(** [processed_data = {'conversion_data': {...}, 'tag_data': {...}}] *)
Definition new_processed_data : M unit := fun w =>
  (Ok tt, {| fs := fs w; processed_data := initial_processed_data |}, []).

(** [yield processed_data] *)
Definition yield_processed_data : M unit := fun w =>
  (Ok tt, w, [Yield (processed_data w)]).

(** [new_filename in existing_converted]; [in] on [False] raises *)
Definition py_in (x : string) (l : orFalse (list string)) : M bool :=
  match l with
  | Value l => ret (str_in x l)
  | PyFalse => raise TypeError
  end.

(** the f-string of line 153 *)
Definition new_filename_of (self : ProcessImages) (image_path filename : string)
  : string :=
  SHA1.hexdigest image_path +:+ "_" +:+ fst (splitext filename)
    +:+ "." +:+ CONVERSION_FORMAT self.

(** body of [for tag in tag_data] (lines 184-195) *)
Definition loop_tag (self : ProcessImages) (new_filename : string)
    (tag : TagData) : M unit :=
  match tags tag with
  | _ :: _ =>
      let tag := {| iptc_key := iptc_key tag;
                    tags := tags tag ++ [copied_marker] |} in
      set_tag_data tag ;;
      _ <- write_iptc_tags (PROCESSED_IMAGE_PATH self) new_filename tag ;;
      ret tt
  | [] => set_tag_data tag
  end.

(** lines 158-174: convert the file, or record the conversion that exists *)
Definition convert_or_skip (self : ProcessImages)
    (image_path filename new_filename : string) (converted_did_exist : bool)
  : M unit :=
  if negb converted_did_exist then
    converted <- convert_format filename new_filename image_path
                   (PROCESSED_IMAGE_PATH self) (CONVERSION_FORMAT self) ;;
    set_conversion_data converted
  else
    set_conversion_data
      (Value {| orig_path := image_path;
                processed_path := PROCESSED_IMAGE_PATH self;
                filename := new_filename |}).

(** lines 178-195: copy the tags of the original if [retag] is set or the
    image was converted in this run *)
Definition tag_or_skip (self : ProcessImages)
    (image_path filename new_filename : string) (converted_did_exist : bool)
  : M unit :=
  if retag self || negb converted_did_exist then
    tag_data <- read_iptc_tags filename image_path ;;
    match tag_data with
    | Value (t :: l) => for_ (t :: l) (loop_tag self new_filename)
    | _ => ret tt
    end
  else ret tt.

(** body of the inner loop for one plain file (lines 153-196) *)
Definition loop_file (self : ProcessImages)
    (existing_converted : orFalse (list string))
    (image_path filename : string) : M unit :=
  let new_filename := new_filename_of self image_path filename in
  converted_did_exist <- py_in new_filename existing_converted ;;
  convert_or_skip self image_path filename new_filename converted_did_exist ;;
  tag_or_skip self image_path filename new_filename converted_did_exist ;;
  yield_processed_data.

(** body of [for filename in os.listdir(image_path)] *)
Definition loop_filename (self : ProcessImages)
    (existing_converted : orFalse (list string))
    (image_path filename : string) : M unit :=
  w <- get_world ;;
  if negb (os_path_isdir w image_path filename)
  then loop_file self existing_converted image_path filename
  else ret tt.

(** body of [for image_path in self.ORIGINAL_IMAGE_PATHS] *)
Definition loop_image_path (self : ProcessImages)
    (existing_converted : orFalse (list string)) (image_path : string)
  : M unit :=
  filenames <- os_listdir image_path ;;
  for_ filenames (loop_filename self existing_converted image_path).

(** [ProcessImages.generate_processed_copies], run to exhaustion.  The
    result is the generator's return value; the [Yield] events are what
    the consumer pulls, in order. *)
Definition generate_processed_copies (self : ProcessImages) : M bool :=
  try_except
    (existing_converted <- get_filenames (PROCESSED_IMAGE_PATH self) ;;
     new_processed_data ;;
     for_ (ORIGINAL_IMAGE_PATHS self)
          (loop_image_path self existing_converted) ;;
     ret false)
    (fun _ => ret false).

(** ** Running the generator *)

Definition outcome_of {A} (r : result A * world * list event) : result A :=
  r.1.1.
Definition world_of {A} (r : result A * world * list event) : world := r.1.2.
Definition events_of {A} (r : result A * world * list event) : list event :=
  r.2.

(** a full run of the pipeline on the directories [files] *)
Definition run (self : ProcessImages) (files : gmap string directory)
  : result bool * world * list event :=
  generate_processed_copies self
    {| fs := files; processed_data := initial_processed_data |}.

Definition is_convert (e : event) : bool :=
  match e with Call_convert_format _ _ _ _ _ => true | _ => false end.
Definition is_read (e : event) : bool :=
  match e with Call_read_iptc_tags _ _ => true | _ => false end.
Definition is_write (e : event) : bool :=
  match e with Call_write_iptc_tags _ _ _ => true | _ => false end.

(** the results as the consumer sees them when it looks at each one as it
    is pulled *)
Fixpoint yielded (evs : list event) : list ProcessedData :=
  match evs with
  | [] => []
  | Yield d :: evs' => d :: yielded evs'
  | _ :: evs' => yielded evs'
  end.

(** [list(generator)]: every element is the same dict object, so after
    exhaustion all of them show its last content *)
Definition collected (r : result bool * world * list event)
  : list ProcessedData :=
  map (fun _ => processed_data (world_of r)) (yielded (events_of r)).

(** the plain files of a source directory, in listing order *)
Definition source_files (files : gmap string directory) (path : string)
  : list string :=
  match files !! path with
  | Some d =>
      List.filter
        (fun n => negb (match dir_lookup n d with
                        | Some SubDir => true
                        | _ => false
                        end))
        (map fst d)
  | None => []
  end.


(** ** Vocabulary of the properties *)

(** [w'] is [w] after work in directory [out]: the other directories are
    the same, no directory appears or disappears, and a file of [out]
    stays a file *)
Definition extends (out : string) (w w' : world) : Prop :=
  (forall p, p <> out -> fs w' !! p = fs w !! p) /\
  (forall p, is_Some (fs w' !! p) <-> is_Some (fs w !! p)) /\
  (forall n, is_Some (lookup_image w out n) ->
             is_Some (lookup_image w' out n)).

(** what [read_iptc_tags] returns for a file of the world *)
Definition read_result (w : world) (path name : string)
  : orFalse (list TagData) :=
  match lookup_image w path name with
  | Some img =>
      match iptc img with
      | Some [] => Value [ {| iptc_key := ""; tags := [] |} ]
      | Some l =>
          Value (map (fun kv => {| iptc_key := fst kv; tags := snd kv |}) l)
      | None => PyFalse
      end
  | None => PyFalse
  end.

(** a record as the pipeline hands it on: with the marker appended when it
    has tags, untouched when it has none *)
Definition stamped (t : TagData) : TagData :=
  match tags t with
  | _ :: _ => {| iptc_key := iptc_key t; tags := tags t ++ [copied_marker] |}
  | [] => t
  end.

Definition has_tags (t : TagData) : bool :=
  match tags t with [] => false | _ :: _ => true end.

(** the keyword values stored in a file of the world *)
Definition keywords_of (w : world) (path name : string)
  : option (list string) :=
  img ← lookup_image w path name; l ← iptc img; iptc_get Keywords l.

(** the listing [get_filenames] takes of a directory *)
Definition listing (w : world) (path : string) : list string :=
  match fs w !! path with
  | Some d =>
      List.filter (fun n => negb (os_path_isdir w path n)) (map fst d)
  | None => []
  end.

Definition passthrough (self : ProcessImages) (image_path filename : string)
  : ConversionData :=
  {| orig_path := image_path;
     processed_path := PROCESSED_IMAGE_PATH self;
     filename := new_filename_of self image_path filename |}.

Definition with_paths (self : ProcessImages) (paths : list string)
  : ProcessImages :=
  {| ORIGINAL_IMAGE_PATHS := paths;
     PROCESSED_IMAGE_PATH := PROCESSED_IMAGE_PATH self;
     CONVERSION_FORMAT := CONVERSION_FORMAT self;
     retag := retag self |}.

(** the records of a [read_iptc_tags] result the tagging loop goes over *)
Definition records (r : orFalse (list TagData)) : list TagData :=
  match r with
  | Value l => l
  | PyFalse => []
  end.

(** the calls of the tagging step for a file, read off the world *)
Definition tag_calls (self : ProcessImages) (w : world)
    (image_path filename : string) : list event :=
  Call_read_iptc_tags filename image_path
  :: map (fun t => Call_write_iptc_tags (PROCESSED_IMAGE_PATH self)
                     (new_filename_of self image_path filename) (stamped t))
         (List.filter has_tags (records (read_result w image_path filename))).

(** the name [convert_format] saves under *)
Definition outfile_of (self : ProcessImages) (image_path filename : string)
  : string :=
  (splitext (new_filename_of self image_path filename)).1
    +:+ "." +:+ CONVERSION_FORMAT self.

(** the call of [convert_format] the pipeline makes for a file *)
Definition convert_call (self : ProcessImages) (image_path filename : string)
  : event :=
  Call_convert_format filename (new_filename_of self image_path filename)
    image_path (PROCESSED_IMAGE_PATH self) (CONVERSION_FORMAT self).

(** how the conversion step leaves the world: [c] is the record it stores *)
Definition conversion_outcome (self : ProcessImages) (p f : string)
    (b : bool) (c : orFalse ConversionData) (w w1 : world) : Prop :=
  if b then c = Value (passthrough self p f) /\ fs w1 = fs w
  else
    (c = PyFalse /\ fs w1 = fs w) \/
    (c = Value {| orig_path := p;
                  processed_path := PROCESSED_IMAGE_PATH self;
                  filename := outfile_of self p f |} /\
     (exists img, lookup_image w p f = Some img /\ decodable img = true) /\
     lookup_image w1 (PROCESSED_IMAGE_PATH self) (outfile_of self p f)
     = Some converted_image /\
     forall p' n',
       ~ (p' = PROCESSED_IMAGE_PATH self /\ n' = outfile_of self p f) ->
       lookup_image w1 p' n' = lookup_image w p' n').

(** [m] keeps the world within [R] and emits only events of [P], also
    when it raises *)
Definition respects (R : world -> world -> Prop) (P : event -> Prop)
    {A} (m : M A) : Prop :=
  forall w, R w (world_of (m w)) /\ Forall P (events_of (m w)).

(** the five words of a digest are 32-bit words *)
Definition in_range (s : SHA1.digest_state) : Prop :=
  let '(a, b, c, d, e) := s in
  0 <= a < 2 ^ 32 /\ 0 <= b < 2 ^ 32 /\ 0 <= c < 2 ^ 32 /\
  0 <= d < 2 ^ 32 /\ 0 <= e < 2 ^ 32.

(** a digest as one number of 160 bits *)
Definition code (s : SHA1.digest_state) : Z :=
  let '(a, b, c, d, e) := s in
  (((a * 2 ^ 32 + b) * 2 ^ 32 + c) * 2 ^ 32 + d) * 2 ^ 32 + e.

(** every result yielded carries a conversion record, none the [False]
    of a failed conversion *)
Definition all_converted (evs : list event) : Prop :=
  Forall (fun d => conversion_data d <> PyFalse) (yielded evs).

(** the world a run starts in *)
Definition start (files : gmap string directory) : world :=
  {| fs := files; processed_data := initial_processed_data |}.

(** what a run that finds everything converted yields for a file *)
Definition skipped_result (self : ProcessImages) (image_path filename : string)
  : ProcessedData :=
  {| conversion_data := Value (passthrough self image_path filename);
     tag_data := {| iptc_key := ""; tags := [] |} |}.

(** ** Sample images and directories *)

Definition tagged_image (entries : list (string * list string)) : image :=
  {| decodable := true; iptc := Some entries; meta_writable := true |}.

(** an image neither [PIL] nor [pyexiv2] can read *)
Definition corrupt_image : image :=
  {| decodable := false; iptc := None; meta_writable := false |}.

(** an image [PIL] converts but whose metadata [pyexiv2] cannot read *)
Definition unreadable_metadata : image :=
  {| decodable := true; iptc := None; meta_writable := false |}.

Definition moon_tags : list string := ["DATE: 1974"; "PLACE: The Moon"].
Definition moon_image : image := tagged_image [(Keywords, moon_tags)].
Definition mars_image : image := tagged_image [(Keywords, ["PLACE: Mars"])].
Definition plain_image : image := tagged_image [].

(** a pipeline writing jpg files to "/processed" *)
Definition pipeline (paths : list string) (retag : bool) : ProcessImages :=
  {| ORIGINAL_IMAGE_PATHS := paths;
     PROCESSED_IMAGE_PATH := "/processed";
     CONVERSION_FORMAT := "jpg";
     retag := retag |}.

(** three images, the second one corrupt *)
Definition files_three : gmap string directory :=
  {[ "/photos" := [("a.tif", File moon_image);
                   ("b.tif", File corrupt_image);
                   ("c.tif", File mars_image)];
     "/processed" := [] ]}.

(** one directory of images; "/missing" does not exist *)
Definition files_one : gmap string directory :=
  {[ "/photos" := [("a.tif", File moon_image)];
     "/processed" := [] ]}.

(** images that all convert, next to a sub-directory *)
Definition files_good : gmap string directory :=
  {[ "/photos" := [("a.tif", File moon_image);
                   ("raw", SubDir);
                   ("c.tif", File plain_image)];
     "/processed" := [] ]}.


(** a tagged image followed by one whose metadata cannot be read *)
Definition files_stale : gmap string directory :=
  {[ "/photos" := [("a.tif", File moon_image);
                   ("b.tif", File unreadable_metadata)];
     "/processed" := [] ]}.

(** an image without IPTC entries that is converted already *)
Definition files_plain_done : gmap string directory :=
  {[ "/photos" := [("plain.tif", File plain_image)];
     "/processed" :=
       [(new_filename_of (pipeline ["/photos"] true) "/photos" "plain.tif",
         File converted_image)] ]}.

(** a tagged image that is converted already *)
Definition files_moon_done : gmap string directory :=
  {[ "/photos" := [("a.tif", File moon_image)];
     "/processed" :=
       [(new_filename_of (pipeline ["/photos"] true) "/photos" "a.tif",
         File converted_image)] ]}.

(** ** The claims that fail, as they are stated *)

(** C1, the recovery from a listing failure: a directory that cannot be
    listed counts for no file and every file of the other directories
    still gets its result *)
Definition enumeration_recovered (self : ProcessImages)
    (files : gmap string directory) : Prop :=
  length (yielded (events_of (run self files)))
  = length (flat_map (source_files files) (ORIGINAL_IMAGE_PATHS self)).

(** C2, for every set of source directories: the second run without
    [retag] calls neither the converter nor the tag writer, leaves the
    files alone and still yields one result per source file *)
Definition second_run_idle (self : ProcessImages)
    (files : gmap string directory) : Prop :=
  retag self = false ->
  let first := run self files in
  let second := run self (fs (world_of first)) in
  List.filter is_convert (events_of second) = [] /\
  List.filter is_write (events_of second) = [] /\
  fs (world_of second) = fs (world_of first) /\
  length (yielded (events_of second))
  = length (flat_map (source_files files) (ORIGINAL_IMAGE_PATHS self)).

(** C6, for every file already converted, under [retag]: no conversion,
    a read of the source and a write to the converted file *)
Definition retagged (self : ProcessImages) (w : world) (p f : string)
  : Prop :=
  retag self = true ->
  str_in (new_filename_of self p f) (listing w (PROCESSED_IMAGE_PATH self))
  = true ->
  let evs := events_of (loop_file self
                          (Value (listing w (PROCESSED_IMAGE_PATH self)))
                          p f w) in
  existsb is_convert evs = false /\
  existsb is_read evs = true /\
  existsb is_write evs = true.

(** C7, for every format string outside the allow-list: the constructor
    succeeds and the format is jpg *)
Definition falls_back_to_jpg (fmt : string) : Prop :=
  ~ In fmt ALLOWED_CONVERSION_FORMATS ->
  forall paths out rt,
  exists self,
    __init__ paths out (PyStr fmt) rt = inr self /\
    CONVERSION_FORMAT self = "jpg".

(** what a run leaves behind for a file: its converted name was in the
    listing [ex] taken at the start, or the conversion has put the file
    into the output directory *)
Definition settled (self : ProcessImages) (ex : list string) (w' : world)
    (p f : string) : Prop :=
  str_in (new_filename_of self p f) ex = true \/
  is_Some (lookup_image w' (PROCESSED_IMAGE_PATH self) (outfile_of self p f)).

(** the result of a skipped file while the dict holds the tags [t0] *)
Definition skip_yield (self : ProcessImages) (t0 : TagData) (p f : string)
  : event :=
  Yield {| conversion_data := Value (passthrough self p f); tag_data := t0 |}.

(** ** Vocabulary of the further properties of the worker *)

(** [m] relates the world it starts in, the events it emits and the world
    it ends in by [Q], also when it raises *)
Definition follows (Q : world -> list event -> world -> Prop)
    {A} (m : M A) : Prop :=
  forall w, Q w (events_of (m w)) (world_of (m w)).

(** what [convert_format] needs to succeed: a source that decodes, a
    target directory, and a target name that is not a directory *)
Definition convertible (w : world) (path orig_filename save_path outfile : string)
  : Prop :=
  (exists img, lookup_image w path orig_filename = Some img /\
               decodable img = true) /\
  is_Some (fs w !! save_path) /\
  lookup_entry w save_path outfile <> Some SubDir.

(** a file whose metadata [pyexiv2] can read and write *)
Definition taggable (w : world) (path name : string) : Prop :=
  exists img l,
    lookup_image w path name = Some img /\ iptc img = Some l /\
    meta_writable img = true.

(** a record whose tags end with the marker, after at least one tag *)
Definition ends_with_marker (t : TagData) : Prop :=
  exists ts, ts <> [] /\ tags t = ts ++ [copied_marker].

(** a call as every run of [self] makes it: conversions and tag writes go
    to the output directory under a converted name, conversions in the
    format of [self], tag writes with the marker *)
Definition aimed_at_output (self : ProcessImages) (e : event) : Prop :=
  match e with
  | Call_convert_format orig_filename new_filename path save_path
                        conversion_format =>
      new_filename = new_filename_of self path orig_filename /\
      save_path = PROCESSED_IMAGE_PATH self /\
      conversion_format = CONVERSION_FORMAT self
  | Call_write_iptc_tags path filename tag_data =>
      path = PROCESSED_IMAGE_PATH self /\
      (exists p f, filename = new_filename_of self p f) /\
      ends_with_marker tag_data
  | Call_read_iptc_tags _ _ => True
  | Yield _ => True
  end.

(** the dict holds what was yielded last *)
Definition holds_last_yield (w : world) (evs : list event) (w' : world)
  : Prop :=
  processed_data w' = List.last (yielded evs) (processed_data w).

(** a record that [write_iptc_tags] stores: keywords, not empty *)
Definition is_keywords (t : TagData) : bool :=
  String.eqb (iptc_key t) Keywords && has_tags t.

Definition record_of (kv : string * list string) : TagData :=
  {| iptc_key := kv.1; tags := kv.2 |}.

(** the tags of a result: none, or tags followed by the marker *)
Definition tags_ok (t : TagData) : Prop :=
  tags t = [] \/ ends_with_marker t.

(** a result as every run of [self] yields it *)
Definition result_ok (self : ProcessImages) (d : ProcessedData) : Prop :=
  tags_ok (tag_data d) /\
  (conversion_data d = PyFalse \/
   exists p f n,
     conversion_data d
     = Value {| orig_path := p;
                processed_path := PROCESSED_IMAGE_PATH self;
                filename := n |} /\
     (n = new_filename_of self p f \/ n = outfile_of self p f)).

(** [d] is a result for the file [pf.2] of the source directory [pf.1]:
    its conversion record is [False] or names that directory, the output
    directory and the converted name of that file *)
Definition result_of (self : ProcessImages) (pf : string * string)
    (d : ProcessedData) : Prop :=
  conversion_data d = PyFalse \/
  exists n,
    conversion_data d
    = Value {| orig_path := pf.1;
               processed_path := PROCESSED_IMAGE_PATH self;
               filename := n |} /\
    (n = new_filename_of self pf.1 pf.2 \/ n = outfile_of self pf.1 pf.2).

(** the plain files of the source directories, each with its directory,
    in the order of the paths and of the listings *)
Definition files_in_order (files : gmap string directory)
    (paths : list string) : list (string * string) :=
  flat_map (fun p => map (pair p) (source_files files p)) paths.

(** * The validators of the API: [custom_validators.py] *)

Module custom_validators.

(** [django.core.exceptions.ValidationError] with its message (the
    message id, before translation) and the built-in exceptions that
    [int] raises *)
Inductive error :=
| ValidationError (message : string)
| ValueError
| TypeError.

(** *** The fragment of [re] the patterns use

    A character class is a list of ranges and single characters; a
    pattern is a sequence of [^], [$] and starred classes.  [$] matches
    at the end of the string and just before a newline that ends it. *)

Inductive class_item :=
| Range (lo hi : ascii)
| Chr (c : ascii).

Definition in_item (c : ascii) (i : class_item) : bool :=
  match i with
  | Range lo hi =>
      (nat_of_ascii lo <=? nat_of_ascii c)%nat
      && (nat_of_ascii c <=? nat_of_ascii hi)%nat
  | Chr c' => Ascii.eqb c c'
  end.

Definition in_class (cls : list class_item) (c : ascii) : bool :=
  existsb (in_item c) cls.

Inductive token :=
| Bol
| Eol
| StarOf (cls : list class_item).

Definition newline : string := String (ascii_of_nat 10) EmptyString.

(** the backtracking matcher; [at_start] tells whether no character has
    been consumed yet *)
Fixpoint match_here (pat : list token) : bool -> string -> bool :=
  match pat with
  | [] => fun _ _ => true
  | Bol :: pat' => fun at_start s => at_start && match_here pat' at_start s
  | Eol :: pat' =>
      fun at_start s =>
        (String.eqb s "" || String.eqb s newline)
        && match_here pat' at_start s
  | StarOf cls :: pat' =>
      fix star (at_start : bool) (s : string) : bool :=
        match s with
        | String c s' =>
            (in_class cls c && star false s') || match_here pat' at_start s
        | EmptyString => match_here pat' at_start s
        end
  end.

(** [re.match(pattern, s)] as a truth value *)
Definition re_match (pat : list token) (s : string) : bool :=
  match_here pat true s.

Definition alnum : list class_item :=
  [Range "A" "Z"; Range "a" "z"; Range "0" "9"].

(** [^[A-Za-z0-9_.\- ]*$] *)
Definition alphanumplus_class : list class_item :=
  alnum ++ [Chr "_"; Chr "."; Chr "-"; Chr " "].
(** [^[A-Za-z0-9_/.\\-]*$] *)
Definition url_class : list class_item :=
  alnum ++ [Chr "_"; Chr "/"; Chr "."; Chr "\"; Chr "-"].
(** [^[A-Za-z0-9_.:\- ]*$] *)
Definition search_class : list class_item :=
  alnum ++ [Chr "_"; Chr "."; Chr ":"; Chr "-"; Chr " "].

(** the message of the f-string [f'{value} contains invalid characters!'] *)
Definition invalid_characters (value : string) : error :=
  ValidationError (value +:+ " contains invalid characters!").

(** The three pattern validators.  [value] is a [str]; the classes hold
    ASCII characters only, so a byte of a non-ASCII character is outside
    of them, as the character is. *)

Definition validate_alphanumplus (value : string) : error + unit :=
  if negb (re_match [Bol; StarOf alphanumplus_class; Eol] value)
  then inl (invalid_characters value)
  else inr tt.

Definition validate_url (value : string) : error + unit :=
  if negb (re_match [Bol; StarOf url_class; Eol] value)
  then inl (invalid_characters value)
  else inr tt.

Definition validate_search (value : string) : error + string :=
  if negb (re_match [Bol; StarOf search_class; Eol] value)
  then inl (invalid_characters value)
  else inr value.

(** *** Python values: truth and [==] *)

Definition truthy (v : pyval) : bool :=
  match v with
  | PyNone => false
  | PyBool b => b
  | PyInt n => negb (n =? 0)
  | PyStr s => negb (String.eqb s "")
  end.

Definition int_of_bool (b : bool) : Z := if b then 1 else 0.

Definition py_eq (a b : pyval) : bool :=
  match a, b with
  | PyNone, PyNone => true
  | PyBool x, PyBool y => Bool.eqb x y
  | PyInt x, PyInt y => x =? y
  | PyBool x, PyInt y => int_of_bool x =? y
  | PyInt x, PyBool y => x =? int_of_bool y
  | PyStr x, PyStr y => String.eqb x y
  | _, _ => false
  end.

(** [x in l] *)
Definition py_in_list (x : pyval) (l : list pyval) : bool :=
  existsb (py_eq x) l.

(** an argument that is one value or a list of values *)
Inductive arg :=
| Scalar (v : pyval)
| PyList (l : list pyval).

Definition validate_passwords_different (value : arg) : error + arg :=
  match value with
  | PyList [old; new] =>
      if truthy old then
        if py_eq old new
        then inl (ValidationError "Old and new passwords are identical!")
        else inr value
      else inl (ValidationError
                  "Credentials were not supplied for validation.")
  | _ => inl (ValidationError "Credentials were not supplied for validation.")
  end.

(** *** RequestQueryValidator *)

Definition page : string := "validation of page limit param".
Definition results : string := "validation of results limit param".
Definition order_by : string := "validation of order_by param".
Definition valid_order_by_values : list string :=
  ["id"; "tags"; "file_name"; "file_type";
   "-id"; "-tags"; "-file_name"; "-file_type"].
(** the class attribute [bool] *)
Definition bool' : string := "validation incoming value is a boolean value".

(** [int(value)]; [parse] is [int] on a [str], [None] when it raises
    [ValueError] *)
Definition int (parse : string -> option Z) (value : pyval) : error + Z :=
  match value with
  | PyInt n => inr n
  | PyBool b => inr (int_of_bool b)
  | PyStr s =>
      match parse s with
      | Some n => inr n
      | None => inl ValueError
      end
  | PyNone => inl TypeError
  end.

(** [try: return int(value)  except ValueError: return default] *)
Definition int_or (parse : string -> option Z) (value : pyval) (default : Z)
  : error + pyval :=
  match int parse value with
  | inr n => inr (PyInt n)
  | inl ValueError => inr (PyInt default)
  | inl e => inl e
  end.

(** [RequestQueryValidator.validate]; a call that falls off the end of
    the function returns [None] *)
Definition validate (parse : string -> option Z) (query_type value : pyval)
  : error + pyval :=
  if py_eq query_type (PyStr page) then int_or parse value 1
  else if py_eq query_type (PyStr results) then int_or parse value 5
  else if py_eq query_type (PyStr order_by) then
    inr (if py_in_list value (map PyStr valid_order_by_values)
         then value else PyStr "id")
  else if py_eq query_type (PyStr "bool") then
    match value with
    | PyBool _ => inr value
    | PyStr s =>
        if str_in (lower s) ["true"; "false"]
        then inr (PyBool (String.eqb (lower s) "true"))
        else inl (ValidationError "This value needs to be True or False!")
    | _ => inl (ValidationError "This value needs to be True or False!")
    end
  else inr PyNone.

(** the strings over a character class *)
Fixpoint all_in (cls : list class_item) (s : string) : bool :=
  match s with
  | EmptyString => true
  | String c s' => in_class cls c && all_in cls s'
  end.

(** what a pattern [^[...]*$] lets through: a string over the class,
    or such a string followed by one newline *)
Definition accepted (cls : list class_item) (s : string) : Prop :=
  all_in cls s = true \/
  exists t, s = t +:+ newline /\ all_in cls t = true.

End custom_validators.

(** * The endpoint that stores tags: [views.AddTags] *)

Module views.

(** a tag dict:
    [{'path': .., 'filename': .., 'iptc_key': .., 'tags': [..]}] *)
Record tag_record :=
  { path : string; filename : string; iptc_key : string;
    tags : list string }.

Section AddTags.
(** [W]: the state of the database and of whatever the worker touches.
    [save tag owner]: [photo_tag_model()], the two assignments and
    [tag_instance.save()]; [false] when one of them raises.
    [main reconvert retag]: [ProcessImages(...).main()] of the module
    [spm_app/process_images.py]; [inl] is the text of the exception it
    raises, [inr] the value of [processed.get('tags')].
    [parse]: [int] on a [str]. *)
Context {W : Type}.
Variable save : string -> string -> W -> bool * W.
Variable main : pyval -> pyval -> W -> (string + option (list tag_record)) * W.
Variable parse : string -> option Z.

(** [for tag in tag_record['tags']: try: ... except Exception: ...] *)
Fixpoint add_tags (owner : string) (l : list string) (added_tags : list string)
    (w : W) : list string * W :=
  match l with
  | [] => (added_tags, w)
  | tag :: l' =>
      let '(ok, w') := save tag owner w in
      add_tags owner l' (if ok then added_tags ++ [tag] else added_tags) w'
  end.

Fixpoint add_records (owner : string) (records : list tag_record)
    (added_tags : list string) (w : W) : list string * W :=
  match records with
  | [] => (added_tags, w)
  | tag_record :: records' =>
      let '(added_tags', w') := add_tags owner (tags tag_record) added_tags w in
      add_records owner records' added_tags' w'
  end.

(** [AddTags.add_tags_to_db(photo_tag_model, tags, owner)] *)
Definition add_tags_to_db (tags : list tag_record) (owner : string) (w : W)
  : list string * W :=
  add_records owner tags [] w.

(** [self.request.query_params.get(key, None)] *)
Definition query_param (query_params : gmap string string) (key : string)
  : pyval :=
  match query_params !! key with
  | Some s => PyStr s
  | None => PyNone
  end.

(** [e.message if isinstance(e, ValidationError) else e] for what
    [validate] raises; the text of the built-in exceptions, which the
    [bool] branch never raises, is left empty *)
Definition error_text (e : custom_validators.error) : string :=
  match e with
  | custom_validators.ValidationError message => message
  | _ => ""
  end.

(** [AddTags.get]: the message and the status of the [JsonResponse] *)
Definition get (query_params : gmap string string) (user : string) (w : W)
  : (string * Z) * W :=
  let validated name :=
    custom_validators.validate parse (PyStr "bool")
                               (query_param query_params name) in
  match validated "reconvert" with
  | inl e => (("Validation error: " +:+ error_text e, 202), w)
  | inr reconvert =>
      match validated "retag" with
      | inl e => (("Validation error: " +:+ error_text e, 202), w)
      | inr retag =>
          match main reconvert retag w with
          | (inl text, w') => (("Validation error: " +:+ text, 202), w')
          | (inr (Some (t :: l)), w') =>
              let '(_, w'') := add_tags_to_db (t :: l) user w' in
              (("Processing ...", 202), w'')
          | (inr _, w') => (("Processing ...", 202), w')
          end
      end
  end.

End AddTags.

End views.
(** * Properties *)

(** ** Reference values of the library models *)

Example sha1_empty :
  SHA1.hexdigest "" = "da39a3ee5e6b4b0d3255bfef95601890afd80709".
Proof. vm_compute. reflexivity. Qed.
Example sha1_abc :
  SHA1.hexdigest "abc" = "a9993e364706816aba3e25717850c26c9cd0d89d".
Proof. vm_compute. reflexivity. Qed.
Example sha1_two_blocks :
  SHA1.hexdigest "abcdbcdecdefdefgefghfghighijhijkijkljklmklmnlmnomnopnopq"
  = "84983e441c3bd26ebaae4aa1f95129e5e54670f1".
Proof. vm_compute. reflexivity. Qed.
Example splitext_photo : splitext "photo.tif" = ("photo", ".tif").
Proof. reflexivity. Qed.
Example splitext_two_dots : splitext "a.b.c" = ("a.b", ".c").
Proof. reflexivity. Qed.
Example splitext_hidden : splitext ".bashrc" = (".bashrc", "").
Proof. reflexivity. Qed.
Example splitext_dir_dot : splitext "a.b/c" = ("a.b/c", "").
Proof. reflexivity. Qed.
Example splitext_no_ext : splitext "README" = ("README", "").
Proof. reflexivity. Qed.
Example splitext_dots_only : splitext "..x" = ("..x", "").
Proof. reflexivity. Qed.
Example splitext_hidden_ext : splitext ".a.b" = (".a", ".b").
Proof. reflexivity. Qed.
Example splitext_trailing_dot : splitext "a." = ("a", ".").
Proof. reflexivity. Qed.

(** ** Strings *)

Lemma app_nil (t : string) : "" +:+ t = t.
Proof. reflexivity. Qed.

Lemma app_cons (a : ascii) (s t : string) :
  String a s +:+ t = String a (s +:+ t).
Proof. reflexivity. Qed.




Lemma has_char_app (c : ascii) (s t : string) :
  has_char c (s +:+ t) = has_char c s || has_char c t.
Proof.
  induction s as [|a s IH]; [reflexivity|].
  rewrite app_cons. simpl. rewrite IH. now rewrite orb_assoc.
Qed.

Lemma rfind_absent (c : ascii) (s : string) :
  has_char c s = false -> rfind c s = -1.
Proof.
  induction s as [|a s IH]; [reflexivity|]. simpl.
  intros [Ha Hs]%orb_false_elim. rewrite (IH Hs). simpl. now rewrite Ha.
Qed.

Lemma rfind_app_last (c : ascii) (a e : string) :
  has_char c e = false ->
  rfind c (a +:+ String c e) = Z.of_nat (String.length a).
Proof.
  intros He. induction a as [|x a IH].
  - rewrite app_nil. simpl. rewrite (rfind_absent _ _ He). simpl.
    now rewrite Ascii.eqb_refl.
  - rewrite app_cons. cbn [rfind]. rewrite IH.
    destruct (0 <=? Z.of_nat (String.length a)) eqn:E;
      [simpl String.length; lia|].
    apply Z.leb_gt in E. lia.
Qed.

Lemma str_take_app (a t : string) : str_take (String.length a) (a +:+ t) = a.
Proof.
  induction a as [|x a IH]; [now destruct t|].
  rewrite app_cons. simpl. now rewrite IH.
Qed.

Lemma str_drop_app (a t : string) : str_drop (String.length a) (a +:+ t) = t.
Proof.
  induction a as [|x a IH]; [reflexivity|]. rewrite app_cons. simpl. exact IH.
Qed.

(** [splitext] gives back the two parts of a name put together from a base
    without separator that starts with a proper character, and an
    extension without dot and separator *)
Lemma splitext_app (h : ascii) (a e : string) :
  h <> "."%char ->
  has_char "/" (String h a) = false ->
  has_char "/" e = false ->
  has_char "." e = false ->
  splitext (String h a +:+ String "." e) = (String h a, String "." e).
Proof.
  intros Hh Ha Hse Hde. unfold splitext.
  assert (Hsep : rfind "/" (String h a +:+ String "." e) = -1).
  { apply rfind_absent. rewrite has_char_app, Ha. simpl. exact Hse. }
  rewrite Hsep, (rfind_app_last "." (String h a) e Hde).
  set (n := String.length (String h a)).
  assert (Hn : n = S (String.length a)) by reflexivity.
  replace (-1 <? Z.of_nat n) with true by (symmetry; apply Z.ltb_lt; lia).
  replace (Z.to_nat (Z.of_nat n - -1)) with (S n) by lia.
  cbn [splitext_loop]. change (-1 + 1) with 0. change (Z.to_nat 0) with 0%nat.
  replace (0 <? Z.of_nat n) with true by (symmetry; apply Z.ltb_lt; lia).
  rewrite app_cons. cbn [String.get].
  replace (Ascii.eqb h ".") with false
    by (symmetry; now apply Ascii.eqb_neq).
  rewrite <- app_cons, Nat2Z.id. subst n.
  now rewrite str_take_app, str_drop_app.
Qed.

Lemma has_char_take (c : ascii) (n : nat) (p : string) :
  has_char c p = false -> has_char c (str_take n p) = false.
Proof.
  revert n. induction p as [|a p IH]; intros [|n]; try reflexivity.
  simpl. intros [Ha Hp]%orb_false_elim. now rewrite Ha, IH.
Qed.

Lemma splitext_loop_fst (fuel : nat) (p : string) (d i : Z)
    (r : string * string) :
  splitext_loop fuel p d i = Some r -> r.1 = str_take (Z.to_nat d) p.
Proof.
  revert i. induction fuel as [|fuel IH]; intros i; [discriminate|].
  cbn [splitext_loop]. destruct (i <? d); [|discriminate].
  destruct (match String.get (Z.to_nat i) p with
            | Some c => Ascii.eqb c "." | None => false end).
  - apply IH.
  - now intros [= <-].
Qed.

(** the base name contains no character the file name does not contain *)
Lemma has_char_splitext (c : ascii) (p : string) :
  has_char c p = false -> has_char c (splitext p).1 = false.
Proof.
  intros H. unfold splitext.
  destruct (rfind "/" p <? rfind "." p); [|exact H].
  destruct (splitext_loop _ p _ _) as [r|] eqn:E; [|exact H].
  rewrite (splitext_loop_fst _ _ _ _ _ E). now apply has_char_take.
Qed.

Lemma has_char_lower (c : ascii) (s : string) :
  lower_ascii c = c -> (forall a, lower_ascii a = c -> a = c) ->
  has_char c (lower s) = has_char c s.
Proof.
  intros Hc Hinj. induction s as [|a s IH]; [reflexivity|].
  simpl. rewrite IH. f_equal.
  destruct (Ascii.eqb_spec a c) as [->|Hne].
  - rewrite Hc. apply Ascii.eqb_refl.
  - apply Ascii.eqb_neq. intros E. apply Hne. now apply Hinj.
Qed.

Lemma lower_ascii_fix (c : ascii) :
  (N_of_ascii c < 65)%N -> forall a, lower_ascii a = c -> a = c.
Proof.
  intros Hc a. unfold lower_ascii.
  destruct ((65 <=? N_of_ascii a) && (N_of_ascii a <=? 90))%N eqn:E;
    [|easy].
  apply andb_prop in E as [E1%N.leb_le E2%N.leb_le]. intros <-.
  rewrite N_ascii_embedding in Hc; lia.
Qed.

(** a format accepted by the allow-list test has no dot and no separator *)
Lemma allowed_format_chars (fmt : string) :
  str_in (lower fmt) ALLOWED_CONVERSION_FORMATS = true ->
  has_char "." fmt = false /\ has_char "/" fmt = false.
Proof.
  intros H.
  rewrite <- (has_char_lower "." fmt), <- (has_char_lower "/" fmt);
    try reflexivity; try (apply lower_ascii_fix; vm_compute; reflexivity).
  unfold str_in, ALLOWED_CONVERSION_FORMATS in H. cbn [existsb] in H.
  repeat (apply orb_prop in H as [H|H]); try discriminate;
    apply String.eqb_eq in H; rewrite H; split; reflexivity.
Qed.

(** ** The SHA-1 hex digest *)

Lemma hex_digit_hex (n : Z) :
  has_char (SHA1.hex_digit n) "0123456789abcdef" = true.
Proof.
  unfold SHA1.hex_digit. generalize (Z.to_nat n) as k. intros k.
  do 16 (destruct k as [|k]; [reflexivity|]). destruct k; reflexivity.
Qed.

Lemma hexdigest_all_hex (s : string) :
  all_hex (SHA1.hexdigest s) = true /\
  String.length (SHA1.hexdigest s) = 40%nat.
Proof.
  unfold SHA1.hexdigest.
  destruct (SHA1.digest _) as [[[[h0 h1] h2] h3] h4].
  unfold SHA1.hex32. repeat (rewrite app_cons || rewrite app_nil).
  split; [|reflexivity].
  cbn [all_hex]. unfold SHA1.nibble. rewrite !hex_digit_hex. reflexivity.
Qed.

Lemma all_hex_absent (c : ascii) (s : string) :
  has_char c "0123456789abcdef" = false ->
  all_hex s = true -> has_char c s = false.
Proof.
  intros Hc. induction s as [|a s IH]; [reflexivity|].
  change (all_hex (String a s))
    with (has_char a "0123456789abcdef" && all_hex s).
  change (has_char c (String a s)) with (Ascii.eqb a c || has_char c s).
  intros [Ha Hs]%andb_prop.
  rewrite (IH Hs), orb_false_r. apply Ascii.eqb_neq. intros ->. congruence.
Qed.

(** the digest starts with a character other than the dot and contains
    no separator *)
Lemma hexdigest_shape (s : string) :
  exists h t, SHA1.hexdigest s = String h t /\ h <> "."%char /\
              has_char "/" (String h t) = false.
Proof.
  destruct (hexdigest_all_hex s) as [Hhex Hlen].
  destruct (SHA1.hexdigest s) as [|h t] eqn:E; [discriminate|].
  exists h, t. split; [reflexivity|]. split.
  - intros ->. cbn [all_hex] in Hhex. discriminate.
  - now apply all_hex_absent.
Qed.

Lemma w32_range (x : Z) : 0 <= SHA1.w32 x < 2 ^ 32.
Proof. unfold SHA1.w32. apply Z.mod_pos_bound. reflexivity. Qed.

Lemma compress_range (h : SHA1.digest_state) (block : list Z) :
  in_range (SHA1.compress h block).
Proof.
  unfold SHA1.compress. destruct h as [[[[h0 h1] h2] h3] h4].
  destruct (SHA1.rounds _ _ _) as [[[[a b] c] d] e].
  unfold in_range. auto using w32_range.
Qed.

Lemma process_range (fuel : nat) (ws : list Z) (h : SHA1.digest_state) :
  in_range h -> in_range (SHA1.process fuel ws h).
Proof.
  revert ws h. induction fuel as [|fuel IH]; intros ws h Hh; [exact Hh|].
  destruct ws as [|w ws]; [exact Hh|].
  cbn [SHA1.process]. apply IH, compress_range.
Qed.

Lemma digest_range (msg : list Z) : in_range (SHA1.digest msg).
Proof.
  unfold SHA1.digest. apply process_range. unfold in_range, SHA1.h_init. lia.
Qed.

Lemma code_range (s : SHA1.digest_state) :
  in_range s -> 0 <= code s < 2 ^ 160.
Proof. destruct s as [[[[a b] c] d] e]. unfold in_range, code. lia. Qed.

Lemma code_inj (s t : SHA1.digest_state) :
  in_range s -> in_range t -> code s = code t -> s = t.
Proof.
  destruct s as [[[[a b] c] d] e], t as [[[[a' b'] c'] d'] e'].
  unfold in_range, code. intros Hs Ht H.
  assert (a = a' /\ b = b' /\ c = c' /\ d = d' /\ e = e') by lia.
  intuition congruence.
Qed.

(** SHA-1 has collisions: the decimal numerals up to 2^160 are more
    strings than there are digests *)
Lemma hexdigest_collision :
  exists p1 p2 : string,
    p1 <> p2 /\ SHA1.hexdigest p1 = SHA1.hexdigest p2.
Proof.
  set (f := fun i : nat =>
              Z.to_nat (code (SHA1.digest (SHA1.bytes_of_string (pretty i))))).
  set (n := Z.to_nat (2 ^ 160)).
  assert (Hf : forall i, (i < S n)%nat -> (f i < n)%nat).
  { intros i _. unfold f, n.
    pose proof (code_range _ (digest_range (SHA1.bytes_of_string (pretty i)))).
    apply Z2Nat.inj_lt; lia. }
  clearbody n.
  destruct (nat_pigeonhole f (S n) n (Nat.lt_succ_diag_r n) Hf)
    as (i & j & Hij & Hfij).
  exists (pretty i), (pretty j). split.
  - intros E. apply (inj pretty) in E. lia.
  - unfold f in Hfij. apply Z2Nat.inj in Hfij.
    + apply code_inj in Hfij; auto using digest_range.
      unfold SHA1.hexdigest. now rewrite Hfij.
    + apply code_range, digest_range.
    + apply code_range, digest_range.
Qed.

Arguments SHA1.hexdigest : simpl never.
Arguments splitext : simpl never.
Arguments new_filename_of : simpl never.

(** ** The monad *)

Lemma bind_ok {A B} (m : M A) (k : A -> M B) w a w1 ev1 r w2 ev2 ev :
  m w = (Ok a, w1, ev1) -> k a w1 = (r, w2, ev2) -> ev = ev1 ++ ev2 ->
  bind m k w = (r, w2, ev).
Proof. intros Hm Hk ->. unfold bind. now rewrite Hm, Hk. Qed.

Lemma bind_raise {A B} (m : M A) (k : A -> M B) w e w1 ev1 :
  m w = (Raise e, w1, ev1) -> bind m k w = (Raise e, w1, ev1).
Proof. intros Hm. unfold bind. now rewrite Hm. Qed.

Lemma try_ok {A} (m : M A) (h : exn -> M A) w a w1 ev1 :
  m w = (Ok a, w1, ev1) -> try_except m h w = (Ok a, w1, ev1).
Proof. intros Hm. unfold try_except. now rewrite Hm. Qed.

Lemma bind_assoc {A B C} (m : M A) (k : A -> M B) (k' : B -> M C) w :
  bind (bind m k) k' w = bind m (fun a => bind (k a) k') w.
Proof.
  unfold bind. destruct (m w) as [[[a|e] w1] ev1]; [|reflexivity].
  destruct (k a w1) as [[[b|e] w2] ev2]; [|reflexivity].
  destruct (k' b w2) as [[r w3] ev3]. now rewrite app_assoc.
Qed.

Lemma ret_bind {A B} (a : A) (k : A -> M B) w : bind (ret a) k w = k a w.
Proof. unfold bind, ret. now destruct (k a w) as [[r w'] ev]. Qed.

Lemma bind_ext {A B} (m : M A) (k1 k2 : A -> M B) w :
  (forall a w', k1 a w' = k2 a w') -> bind m k1 w = bind m k2 w.
Proof.
  intros H. unfold bind. destruct (m w) as [[[a|e] w1] ev1]; [|reflexivity].
  now rewrite H.
Qed.

Lemma for_app {A} (l1 l2 : list A) (body : A -> M unit) w :
  for_ (l1 ++ l2) body w = (for_ l1 body ;; for_ l2 body) w.
Proof.
  revert w. induction l1 as [|x l1 IH]; intros w; cbn [app for_].
  - symmetry. apply (ret_bind tt (fun _ => for_ l2 body)).
  - rewrite bind_assoc. apply bind_ext. intros _ w'. apply IH.
Qed.

(** ** Directories and worlds *)

Lemma dir_lookup_put (n n' : string) (e : entry) (d : directory) :
  dir_lookup n' (dir_put n e d)
  = if String.eqb n n' then Some e else dir_lookup n' d.
Proof.
  induction d as [|[m e'] d IH]; [reflexivity|]. cbn [dir_put dir_lookup].
  destruct (String.eqb_spec m n) as [->|Hmn]; cbn [dir_lookup].
  - now destruct (String.eqb n n').
  - rewrite IH. destruct (String.eqb_spec m n') as [->|Hmn'].
    + now replace (String.eqb n n') with false
        by (symmetry; apply String.eqb_neq; congruence).
    + reflexivity.
Qed.

Lemma iptc_get_put (k : string) (v : list string)
    (l : list (string * list string)) :
  iptc_get k (iptc_put k v l) = Some v.
Proof.
  induction l as [|[k' v'] l IH]; cbn [iptc_put iptc_get].
  - now rewrite String.eqb_refl.
  - destruct (String.eqb k' k) eqn:E; cbn [iptc_get]; now rewrite E.
Qed.

Lemma iptc_get_erased (k : string) (l : list (string * list string)) :
  iptc_get k (List.filter (fun kv => negb (String.eqb (fst kv) k)) l) = None.
Proof.
  induction l as [|[k' v'] l IH]; [reflexivity|]. cbn [List.filter fst].
  destruct (String.eqb k' k) eqn:E; cbn [negb]; [exact IH|].
  cbn [iptc_get]. now rewrite E.
Qed.

(** what is stored under a key after it was set: the values given, or
    nothing when none was given *)
Lemma iptc_get_set (k : string) (v : list string)
    (l : list (string * list string)) :
  iptc_get k (iptc_set k v l)
  = match v with [] => None | _ :: _ => Some v end.
Proof.
  destruct v as [|x v]; [apply iptc_get_erased|apply iptc_get_put].
Qed.

Lemma lookup_image_put (w : world) (out name : string) (img : image)
    (d : directory) pd (p n : string) :
  fs w !! out = Some d ->
  lookup_image {| fs := <[out := dir_put name (File img) d]> (fs w);
                  processed_data := pd |} p n
  = if decide (p = out /\ n = name) then Some img else lookup_image w p n.
Proof.
  intros Hd. unfold lookup_image, lookup_entry. cbn [fs].
  destruct (decide (p = out)) as [->|Hp].
  - rewrite lookup_insert_eq, Hd. cbn. rewrite dir_lookup_put.
    destruct (String.eqb_spec name n) as [->|Hn].
    + rewrite decide_True; [reflexivity|tauto].
    + rewrite decide_False; [reflexivity|]. intros [_ ->]. congruence.
  - rewrite lookup_insert_ne by congruence.
    rewrite decide_False; [reflexivity|tauto].
Qed.

Lemma extends_refl (out : string) (w : world) : extends out w w.
Proof. repeat split; auto. Qed.

Lemma extends_trans (out : string) (w1 w2 w3 : world) :
  extends out w1 w2 -> extends out w2 w3 -> extends out w1 w3.
Proof.
  intros (A1 & B1 & C1) (A2 & B2 & C2). repeat split.
  - intros p Hp. now rewrite A2, A1.
  - intros H. now apply B1, B2.
  - intros H. now apply B2, B1.
  - intros n H. now apply C2, C1.
Qed.

Lemma extends_data (out : string) (w : world) pd :
  extends out w {| fs := fs w; processed_data := pd |}.
Proof. repeat split; auto. Qed.

Lemma extends_put (out name : string) (img : image) (d : directory)
    (w : world) pd :
  fs w !! out = Some d ->
  extends out w {| fs := <[out := dir_put name (File img) d]> (fs w);
                   processed_data := pd |}.
Proof.
  intros Hd. repeat split; cbn [fs].
  - intros p Hp. now rewrite lookup_insert_ne.
  - destruct (decide (p = out)) as [->|Hp].
    + rewrite Hd. eauto.
    + now rewrite lookup_insert_ne.
  - destruct (decide (p = out)) as [->|Hp].
    + rewrite lookup_insert_eq. eauto.
    + now rewrite lookup_insert_ne.
  - intros n Hn. rewrite (lookup_image_put _ _ _ _ _ _ _ _ Hd).
    destruct (decide _); eauto.
Qed.

(** ** The methods, one by one *)

Lemma read_iptc_tags_spec (filename path : string) (w : world) :
  read_iptc_tags filename path w
  = (Ok (read_result w path filename), w,
     [Call_read_iptc_tags filename path]).
Proof.
  unfold read_iptc_tags, read_result, bind, emit, try_except, pyexiv2_read, ret.
  destruct (lookup_image w path filename) as [img|]; [|reflexivity].
  destruct (iptc img) as [[|kv l]|]; reflexivity.
Qed.

(** [read_iptc_tags] never returns an empty list *)
Lemma read_result_nonempty (w : world) (path name : string) :
  read_result w path name <> Value [].
Proof.
  unfold read_result. destruct (lookup_image w path name) as [img|]; [|easy].
  destruct (iptc img) as [[|kv l]|]; easy.
Qed.

Lemma write_iptc_tags_spec (path filename : string) (t : TagData) (w : world) :
  exists b w',
    write_iptc_tags path filename t w
    = (Ok b, w', [Call_write_iptc_tags path filename t]) /\
    extends path w w' /\
    processed_data w' = processed_data w /\
    (b = false -> w' = w) /\
    (iptc_key t <> Keywords -> b = false) /\
    (b = true ->
       iptc_key t = Keywords /\
       keywords_of w' path filename
       = match tags t with [] => None | _ :: _ => Some (tags t) end /\
       forall p n, ~ (p = path /\ n = filename) ->
                   lookup_image w' p n = lookup_image w p n).
Proof.
  unfold write_iptc_tags, bind, emit, try_except, ret.
  destruct (String.eqb_spec (iptc_key t) Keywords) as [Hk|Hk].
  2:{ exists false, w. repeat split; auto using extends_refl; try easy. }
  unfold pyexiv2_write.
  destruct (fs w !! path) as [d|] eqn:Hd;
    [|exists false, w; repeat split; auto using extends_refl; easy].
  destruct (dir_lookup filename d) as [[img|]|] eqn:Hf;
    try (exists false, w; repeat split; auto using extends_refl; easy).
  destruct (iptc img) as [l|] eqn:Hl;
    [|exists false, w; repeat split; auto using extends_refl; easy].
  destruct (meta_writable img) eqn:Hw;
    [|exists false, w; repeat split; auto using extends_refl; easy].
  eexists true, _. split; [reflexivity|].
  split; [now apply extends_put|]. split; [reflexivity|].
  split; [easy|]. split; [easy|]. intros _. split; [exact Hk|]. split.
  - unfold keywords_of. rewrite (lookup_image_put _ _ _ _ _ _ _ _ Hd).
    rewrite decide_True by tauto. cbn. rewrite Hk. apply iptc_get_set.
  - intros p n Hpn. rewrite (lookup_image_put _ _ _ _ _ _ _ _ Hd).
    now rewrite decide_False.
Qed.

(** the write succeeds on an existing image that [pyexiv2] can handle *)
Lemma write_iptc_tags_success (path filename : string) (t : TagData)
    (w : world) (img : image) (l : list (string * list string)) :
  iptc_key t = Keywords ->
  lookup_image w path filename = Some img ->
  iptc img = Some l -> meta_writable img = true ->
  exists w',
    write_iptc_tags path filename t w
    = (Ok true, w', [Call_write_iptc_tags path filename t]).
Proof.
  intros Hk Himg Hl Hw.
  unfold write_iptc_tags, bind, emit, try_except, ret, pyexiv2_write.
  rewrite Hk, String.eqb_refl.
  unfold lookup_image, lookup_entry in Himg.
  destruct (fs w !! path) as [d|]; [|discriminate]. cbn in Himg.
  destruct (dir_lookup filename d) as [[img'|]|]; try discriminate.
  injection Himg as ->. rewrite Hl, Hw. eauto.
Qed.

Lemma convert_format_spec (f nf p sp fmt : string) (w : world) :
  let outfile := (splitext nf).1 +:+ "." +:+ fmt in
  exists c w',
    convert_format f nf p sp fmt w
    = (Ok c, w', [Call_convert_format f nf p sp fmt]) /\
    extends sp w w' /\
    processed_data w' = processed_data w /\
    ((c = PyFalse /\ w' = w) \/
     (c = Value {| orig_path := p; processed_path := sp;
                   filename := outfile |} /\
      (exists img, lookup_image w p f = Some img /\ decodable img = true) /\
      lookup_image w' sp outfile = Some converted_image /\
      forall p' n', ~ (p' = sp /\ n' = outfile) ->
                    lookup_image w' p' n' = lookup_image w p' n')).
Proof.
  intros outfile.
  unfold convert_format, bind, emit, try_except, ret, PIL_open_save.
  fold outfile.
  destruct (lookup_image w p f) as [img|] eqn:Himg;
    [|exists PyFalse, w; repeat split; auto using extends_refl].
  destruct (decodable img) eqn:Hdec;
    [|exists PyFalse, w; repeat split; auto using extends_refl].
  destruct (fs w !! sp) as [d|] eqn:Hd;
    [|exists PyFalse, w; repeat split; auto using extends_refl].
  destruct (dir_lookup outfile d) as [[img'|]|] eqn:Hout;
    try (exists PyFalse, w; repeat split; auto using extends_refl; fail).
  all: eexists _, _; split; [reflexivity|];
    split; [now apply extends_put|]; split; [reflexivity|]; right;
    split; [reflexivity|]; split; [eauto|]; split;
    [ rewrite (lookup_image_put _ _ _ _ _ _ _ _ Hd);
      now rewrite decide_True by tauto
    | intros p' n' Hpn; rewrite (lookup_image_put _ _ _ _ _ _ _ _ Hd);
      now rewrite decide_False ].
Qed.

Lemma last_cons {A} (l : list A) (x d : A) :
  List.last (x :: l) d = List.last l x.
Proof.
  revert x d. induction l as [|y l IH]; intros x d; [reflexivity|].
  change (List.last (x :: y :: l) d) with (List.last (y :: l) d).
  now rewrite !IH.
Qed.

Lemma set_tag_data_spec (t : TagData) (w : world) :
  set_tag_data t w
  = (Ok tt,
     {| fs := fs w;
        processed_data :=
          {| conversion_data := conversion_data (processed_data w);
             tag_data := t |} |}, []).
Proof. reflexivity. Qed.

Lemma loop_tag_spec (self : ProcessImages) (nf : string) (t : TagData)
    (w : world) :
  exists w',
    loop_tag self nf t w
    = (Ok tt, w',
       if has_tags t
       then [Call_write_iptc_tags (PROCESSED_IMAGE_PATH self) nf (stamped t)]
       else []) /\
    extends (PROCESSED_IMAGE_PATH self) w w' /\
    processed_data w'
    = {| conversion_data := conversion_data (processed_data w);
         tag_data := stamped t |} /\
    (has_tags t = false -> fs w' = fs w) /\
    (forall p n, ~ (p = PROCESSED_IMAGE_PATH self /\ n = nf) ->
                 lookup_image w' p n = lookup_image w p n).
Proof.
  unfold loop_tag, has_tags, stamped. destruct (tags t) as [|x l] eqn:Ht.
  - eexists. split; [reflexivity|]. split; [apply extends_data|]. easy.
  - set (t' := {| iptc_key := iptc_key t;
                  tags := (x :: l) ++ [copied_marker] |}).
    destruct (write_iptc_tags_spec (PROCESSED_IMAGE_PATH self) nf t'
                {| fs := fs w;
                   processed_data :=
                     {| conversion_data := conversion_data (processed_data w);
                        tag_data := t' |} |})
      as (b & w' & Hw & Hext & Hpd & Hf & _ & Ht').
    exists w'. split.
    { eapply bind_ok; [apply set_tag_data_spec| |reflexivity].
      eapply bind_ok; [exact Hw|reflexivity|reflexivity]. }
    split.
    { eapply extends_trans; [apply extends_data|exact Hext]. }
    split; [exact Hpd|]. split; [discriminate|].
    intros p n Hpn. destruct b.
    + destruct (Ht' eq_refl) as (_ & _ & Hfr). now rewrite Hfr.
    + now rewrite (Hf eq_refl).
Qed.

Lemma for_loop_tag_spec (self : ProcessImages) (nf : string)
    (l : list TagData) (w : world) :
  exists w',
    for_ l (loop_tag self nf) w
    = (Ok tt, w',
       map (fun t => Call_write_iptc_tags (PROCESSED_IMAGE_PATH self) nf
                       (stamped t))
           (List.filter has_tags l)) /\
    extends (PROCESSED_IMAGE_PATH self) w w' /\
    processed_data w'
    = {| conversion_data := conversion_data (processed_data w);
         tag_data := List.last (map stamped l)
                               (tag_data (processed_data w)) |} /\
    (List.filter has_tags l = [] -> fs w' = fs w) /\
    (forall p n, ~ (p = PROCESSED_IMAGE_PATH self /\ n = nf) ->
                 lookup_image w' p n = lookup_image w p n).
Proof.
  revert w. induction l as [|t l IH]; intros w.
  - exists w. split; [reflexivity|]. split; [apply extends_refl|].
    split; [now destruct w as [? []]|]. easy.
  - destruct (loop_tag_spec self nf t w) as (w1 & H1 & E1 & P1 & F1 & R1).
    destruct (IH w1) as (w2 & H2 & E2 & P2 & F2 & R2).
    exists w2. split.
    { cbn [for_]. eapply bind_ok; [exact H1|exact H2|].
      cbn [List.filter]. now destruct (has_tags t). }
    split; [eapply extends_trans; eassumption|]. split.
    { rewrite P2, P1. cbn [conversion_data tag_data map].
      f_equal. symmetry. apply last_cons. }
    split.
    { cbn [List.filter]. destruct (has_tags t); [discriminate|].
      intros Hl. now rewrite F2, F1. }
    intros p n Hpn. now rewrite R2, R1.
Qed.

Lemma tag_or_skip_spec (self : ProcessImages) (p f : string) (b : bool)
    (w : world) :
  let nf := new_filename_of self p f in
  exists w',
    tag_or_skip self p f nf b w
    = (Ok tt, w', if retag self || negb b then tag_calls self w p f else []) /\
    extends (PROCESSED_IMAGE_PATH self) w w' /\
    conversion_data (processed_data w') = conversion_data (processed_data w) /\
    tag_data (processed_data w')
    = (if retag self || negb b
       then List.last (map stamped (records (read_result w p f)))
                 (tag_data (processed_data w))
       else tag_data (processed_data w)) /\
    (forall p' n', ~ (p' = PROCESSED_IMAGE_PATH self /\ n' = nf) ->
                   lookup_image w' p' n' = lookup_image w p' n').
Proof.
  intros nf. unfold tag_or_skip.
  destruct (retag self || negb b).
  2:{ exists w. repeat split; auto using extends_refl. }
  unfold tag_calls. fold nf.
  destruct (read_result w p f) as [[|t l]|] eqn:Hr.
  - exists w. split.
    { eapply bind_ok; [apply read_iptc_tags_spec|now rewrite Hr|reflexivity]. }
    repeat split; auto using extends_refl.
  - destruct (for_loop_tag_spec self nf (t :: l) w)
      as (w' & H & E & P & _ & R).
    exists w'. split.
    { eapply bind_ok; [apply read_iptc_tags_spec|rewrite Hr; exact H|].
      reflexivity. }
    split; [exact E|]. rewrite P. repeat split. exact R.
  - exists w. split.
    { eapply bind_ok; [apply read_iptc_tags_spec|now rewrite Hr|reflexivity]. }
    repeat split; auto using extends_refl.
Qed.

Lemma convert_or_skip_spec (self : ProcessImages) (p f : string) (b : bool)
    (w : world) :
  exists c w1,
    convert_or_skip self p f (new_filename_of self p f) b w
    = (Ok tt, w1, if b then [] else [convert_call self p f]) /\
    extends (PROCESSED_IMAGE_PATH self) w w1 /\
    processed_data w1
    = {| conversion_data := c; tag_data := tag_data (processed_data w) |} /\
    conversion_outcome self p f b c w w1.
Proof.
  unfold convert_or_skip, conversion_outcome. destruct b; cbn [negb].
  - eexists _, _. split; [reflexivity|]. split; [apply extends_data|].
    split; [reflexivity|]. split; reflexivity.
  - destruct (convert_format_spec f (new_filename_of self p f) p
                (PROCESSED_IMAGE_PATH self) (CONVERSION_FORMAT self) w)
      as (c & w1 & H & E & P & Hc).
    exists c. eexists. split.
    { eapply bind_ok; [exact H|reflexivity|reflexivity]. }
    split; [eapply extends_trans; [exact E|apply extends_data]|].
    split; [cbn; now rewrite P|].
    destruct Hc as [[-> ->]|(-> & Hsrc & Hout & Hfr)]; [left|right]; cbn [fs].
    + easy.
    + repeat split; assumption.
Qed.

(** the body for one file, when the listing of the output directory is
    available: it returns normally and its calls, its effect on the world
    and the dict it yields are as the three steps leave them *)
Lemma loop_file_spec (self : ProcessImages) (ex : list string)
    (p f : string) (w : world) :
  let b := str_in (new_filename_of self p f) ex in
  exists c w1 w2,
    loop_file self (Value ex) p f w
    = (Ok tt, w2,
       (if b then [] else [convert_call self p f])
       ++ (if retag self || negb b then tag_calls self w1 p f else [])
       ++ [Yield (processed_data w2)]) /\
    extends (PROCESSED_IMAGE_PATH self) w w1 /\
    extends (PROCESSED_IMAGE_PATH self) w1 w2 /\
    conversion_outcome self p f b c w w1 /\
    conversion_data (processed_data w2) = c /\
    tag_data (processed_data w2)
    = (if retag self || negb b
       then List.last (map stamped (records (read_result w1 p f)))
                      (tag_data (processed_data w))
       else tag_data (processed_data w)) /\
    (forall p' n',
       ~ (p' = PROCESSED_IMAGE_PATH self /\ n' = new_filename_of self p f) ->
       lookup_image w2 p' n' = lookup_image w1 p' n').
Proof.
  intros b.
  destruct (convert_or_skip_spec self p f b w) as (c & w1 & H1 & E1 & P1 & O1).
  destruct (tag_or_skip_spec self p f b w1) as (w2 & H2 & E2 & C2 & T2 & R2).
  exists c, w1, w2. split.
  { unfold loop_file. eapply bind_ok; [reflexivity| |reflexivity].
    fold b. eapply bind_ok; [exact H1| |reflexivity].
    eapply bind_ok; [exact H2|reflexivity|reflexivity]. }
  split; [exact E1|]. split; [exact E2|]. split; [exact O1|].
  split; [now rewrite C2, P1|]. split; [|exact R2].
  rewrite T2, P1. reflexivity.
Qed.

(** without the listing of the output directory the body raises at once *)
Lemma loop_file_no_listing (self : ProcessImages) (p f : string) (w : world) :
  loop_file self PyFalse p f w = (Raise TypeError, w, []).
Proof. reflexivity. Qed.

(** ** What every run keeps, whether it raises or not *)

Section Respects.
Context (R : world -> world -> Prop) (P : event -> Prop).
Hypothesis R_refl : forall w, R w w.
Hypothesis R_trans : forall w1 w2 w3, R w1 w2 -> R w2 w3 -> R w1 w3.

Lemma respects_ret {A} (a : A) : respects R P (ret a).
Proof. intros w. split; [apply R_refl|constructor]. Qed.

Lemma respects_get_world : respects R P get_world.
Proof. intros w. split; [apply R_refl|constructor]. Qed.

Lemma respects_bind {A B} (m : M A) (k : A -> M B) :
  respects R P m -> (forall a, respects R P (k a)) -> respects R P (bind m k).
Proof.
  intros Hm Hk w. specialize (Hm w). unfold bind, world_of, events_of in *.
  destruct (m w) as [[[a|e] w1] ev1]; cbn in *; [|exact Hm].
  specialize (Hk a w1). unfold world_of, events_of in Hk.
  destruct (k a w1) as [[r w2] ev2]. cbn in *. split.
  - eapply R_trans; [apply Hm|apply Hk].
  - apply Forall_app. split; [apply Hm|apply Hk].
Qed.

Lemma respects_try {A} (m : M A) (h : exn -> M A) :
  respects R P m -> (forall e, respects R P (h e)) ->
  respects R P (try_except m h).
Proof.
  intros Hm Hh w. specialize (Hm w).
  unfold try_except, world_of, events_of in *.
  destruct (m w) as [[[a|e] w1] ev1]; cbn in *; [exact Hm|].
  specialize (Hh e w1). unfold world_of, events_of in Hh.
  destruct (h e w1) as [[r w2] ev2]. cbn in *. split.
  - eapply R_trans; [apply Hm|apply Hh].
  - apply Forall_app. split; [apply Hm|apply Hh].
Qed.

Lemma respects_for {A} (l : list A) (body : A -> M unit) :
  (forall x, respects R P (body x)) -> respects R P (for_ l body).
Proof.
  intros Hb. induction l as [|x l IH]; cbn [for_].
  - apply respects_ret.
  - apply respects_bind; [apply Hb|intros _; exact IH].
Qed.
End Respects.

Lemma respects_os_listdir R P (path : string) :
  (forall w, R w w) -> respects R P (os_listdir path).
Proof.
  intros HR w. unfold os_listdir, world_of, events_of.
  destruct (fs w !! path); cbn; split; auto.
Qed.

Lemma respects_loop_file (self : ProcessImages) (P : event -> Prop)
    (existing : orFalse (list string)) (p f : string) :
  P (convert_call self p f) ->
  P (Call_read_iptc_tags f p) ->
  (forall t, P (Call_write_iptc_tags (PROCESSED_IMAGE_PATH self)
                  (new_filename_of self p f) t)) ->
  (forall d, P (Yield d)) ->
  respects (extends (PROCESSED_IMAGE_PATH self)) P
           (loop_file self existing p f).
Proof.
  intros Pc Pr Pw Py w. destruct existing as [ex|].
  2:{ rewrite loop_file_no_listing. split; [apply extends_refl|constructor]. }
  destruct (loop_file_spec self ex p f w) as (c & w1 & w2 & H & E1 & E2 & _).
  rewrite H. unfold world_of, events_of. cbn. split.
  - eapply extends_trans; eassumption.
  - apply Forall_app. split; [destruct (str_in _ ex); auto|].
    apply Forall_app. split; [|auto].
    destruct (retag self || negb _); [|constructor].
    unfold tag_calls. constructor; [exact Pr|].
    induction (List.filter has_tags _) as [|t l IH]; constructor; auto.
Qed.

(** a full run only works in the output directory, and its events are
    the calls and yields of the per-file body *)
Lemma respects_generate (self : ProcessImages) (P : event -> Prop) :
  (forall p f, P (convert_call self p f)) ->
  (forall p f, P (Call_read_iptc_tags f p)) ->
  (forall p f t, P (Call_write_iptc_tags (PROCESSED_IMAGE_PATH self)
                      (new_filename_of self p f) t)) ->
  (forall d, P (Yield d)) ->
  respects (extends (PROCESSED_IMAGE_PATH self)) P
           (generate_processed_copies self).
Proof.
  intros Pc Pr Pw Py.
  pose proof (extends_refl (PROCESSED_IMAGE_PATH self)) as Hrefl.
  pose proof (extends_trans (PROCESSED_IMAGE_PATH self)) as Htrans.
  unfold generate_processed_copies.
  apply respects_try; auto; [|intros; now apply respects_ret].
  apply respects_bind; auto.
  { unfold get_filenames. apply respects_try; auto;
      [|intros; now apply respects_ret].
    apply respects_bind; auto; [now apply respects_os_listdir|intros names].
    apply respects_bind; auto; [now apply respects_get_world|].
    intros; now apply respects_ret. }
  intros existing. apply respects_bind; auto.
  { intros w. split; [apply extends_data|constructor]. }
  intros _. apply respects_bind; auto; [|intros; now apply respects_ret].
  apply respects_for; auto. intros p. unfold loop_image_path.
  apply respects_bind; auto; [now apply respects_os_listdir|intros names].
  apply respects_for; auto. intros f. unfold loop_filename.
  apply respects_bind; auto; [now apply respects_get_world|intros w'].
  destruct (negb _); [|now apply respects_ret].
  apply respects_loop_file; auto.
Qed.

(** the generator always ends by returning: nothing it catches gets out *)
Lemma generate_returns (self : ProcessImages) (w : world) :
  outcome_of (generate_processed_copies self w) = Ok false.
Proof.
  unfold generate_processed_copies, try_except, outcome_of.
  match goal with
  | |- context [bind ?m ?k w] =>
      destruct (bind m k w) as [[[b|e] w1] ev1] eqn:E
  end.
  - cbn. unfold bind in E.
    destruct (get_filenames _ w) as [[[ex|e] w2] ev2]; [|discriminate].
    destruct (new_processed_data w2) as [[[[]|e] w3] ev3]; [|discriminate].
    destruct (for_ _ _ w3) as [[[[]|e] w4] ev4]; [|discriminate].
    cbn in E. now injection E as <- _ _.
  - reflexivity.
Qed.

(** ** Names, listings and yielded results *)

Lemma app_assoc_s (a b c : string) : (a +:+ b) +:+ c = a +:+ (b +:+ c).
Proof.
  induction a as [|x a IH]; [reflexivity|]. rewrite !app_cons. now rewrite IH.
Qed.

(** [convert_format] saves under the very name the pipeline looks up
    in its listing of the output directory *)
Lemma outfile_is_new_filename (self : ProcessImages) (p f : string) :
  str_in (lower (CONVERSION_FORMAT self)) ALLOWED_CONVERSION_FORMATS = true ->
  has_char "/" f = false ->
  outfile_of self p f = new_filename_of self p f.
Proof.
  intros Hfmt Hf. unfold outfile_of, new_filename_of.
  destruct (allowed_format_chars _ Hfmt) as [Hdot Hsep].
  destruct (hexdigest_shape p) as (h & t & -> & Hh & Hs).
  set (base := (splitext f).1). set (fmt := CONVERSION_FORMAT self) in *.
  assert (E : String h t +:+ "_" +:+ base +:+ "." +:+ fmt
              = String h (t +:+ "_" +:+ base) +:+ String "." fmt).
  { rewrite <- (app_assoc_s (String h t) "_"), <- app_assoc_s.
    rewrite (app_assoc_s (String h t) "_"). reflexivity. }
  rewrite E, splitext_app; auto.
  rewrite <- app_cons, has_char_app, Hs. cbn [orb].
  rewrite has_char_app. cbn. now apply has_char_splitext.
Qed.

Lemma str_in_In (x : string) (l : list string) :
  str_in x l = true <-> In x l.
Proof.
  unfold str_in. rewrite existsb_exists. split.
  - intros (y & Hy & ->%String.eqb_eq). exact Hy.
  - intros H. exists x. split; [exact H|apply String.eqb_refl].
Qed.

Lemma dir_lookup_in (n : string) (d : directory) :
  In n (map fst d) <-> is_Some (dir_lookup n d).
Proof.
  induction d as [|[m e] d IH]; cbn [map fst dir_lookup In].
  - split; [easy|intros [? [=]]].
  - destruct (String.eqb_spec m n) as [->|Hmn].
    + split; eauto.
    + rewrite <- IH. split; [intros [?|?]; [congruence|assumption]|auto].
Qed.

(** the listing of a directory holds exactly its plain files *)
Lemma listing_spec (w : world) (path n : string) :
  str_in n (listing w path) = true <-> is_Some (lookup_image w path n).
Proof.
  rewrite str_in_In. unfold listing, lookup_image, os_path_isdir, lookup_entry.
  destruct (fs w !! path) as [d|]; cbn; [|split; [easy|intros [? [=]]]].
  rewrite filter_In, dir_lookup_in.
  destruct (dir_lookup n d) as [[img|]|]; cbn; split.
  - eauto.
  - intros _. split; [eauto|reflexivity].
  - intros [_ [=]].
  - intros [? [=]].
  - intros [[? [=]] _].
  - intros [? [=]].
Qed.

Lemma get_filenames_spec (path : string) (w : world) :
  get_filenames path w
  = (Ok (match fs w !! path with
         | Some _ => Value (listing w path)
         | None => PyFalse
         end), w, []).
Proof.
  unfold get_filenames, try_except, bind, os_listdir, listing, get_world, ret.
  destruct (fs w !! path); reflexivity.
Qed.

Lemma yielded_app (ev1 ev2 : list event) :
  yielded (ev1 ++ ev2) = yielded ev1 ++ yielded ev2.
Proof.
  induction ev1 as [|e ev1 IH]; [reflexivity|].
  destruct e; cbn [app yielded]; now rewrite ?IH.
Qed.

Lemma yielded_tag_calls (self : ProcessImages) (w : world) (p f : string) :
  yielded (tag_calls self w p f) = [].
Proof.
  unfold tag_calls. cbn [yielded].
  induction (List.filter has_tags _) as [|t l IH]; [reflexivity|exact IH].
Qed.

(** the events of the body for one file hold exactly one result *)
Lemma yielded_loop_file (self : ProcessImages) (w : world) (p f : string)
    (b1 b2 : bool) (d : ProcessedData) :
  yielded ((if b1 then [] else [convert_call self p f])
           ++ (if b2 then tag_calls self w p f else []) ++ [Yield d])
  = [d].
Proof.
  rewrite !yielded_app.
  replace (yielded (if b1 then [] else [convert_call self p f])) with
    (@nil ProcessedData) by now destruct b1.
  replace (yielded (if b2 then tag_calls self w p f else [])) with
    (@nil ProcessedData)
    by (destruct b2; [now rewrite yielded_tag_calls|reflexivity]).
  reflexivity.
Qed.

Lemma isdir_extends (out p n : string) (w w' : world) :
  extends out w w' -> p <> out -> os_path_isdir w' p n = os_path_isdir w p n.
Proof.
  intros (H & _) Hp. unfold os_path_isdir, lookup_entry. now rewrite H.
Qed.

(** ** The loops, when every listing succeeds *)

Lemma loop_filename_dir (self : ProcessImages) existing (p f : string)
    (w : world) :
  os_path_isdir w p f = true ->
  loop_filename self existing p f w = (Ok tt, w, []).
Proof. intros H. unfold loop_filename, bind, get_world. now rewrite H. Qed.

Lemma loop_filename_file (self : ProcessImages) existing (p f : string)
    (w : world) :
  os_path_isdir w p f = false ->
  loop_filename self existing p f w = loop_file self existing p f w.
Proof.
  intros H. unfold loop_filename, bind, get_world. rewrite H. cbn [negb].
  now destruct (loop_file self existing p f w) as [[r w'] ev].
Qed.

Section Loops.
Variable self : ProcessImages.
Variable ex : list string.
Local Abbreviation out := (PROCESSED_IMAGE_PATH self).

Lemma settled_extends (w w' : world) (p f : string) :
  extends out w w' -> settled self ex w p f -> settled self ex w' p f.
Proof. intros (_ & _ & H) [?|?]; [now left|right; now apply H]. Qed.

Lemma inner_loop_spec (p : string) (l : list string) (w : world) :
  p <> out ->
  exists w' ev,
    for_ l (loop_filename self (Value ex) p) w = (Ok tt, w', ev) /\
    extends out w w' /\
    length (yielded ev)
    = length (List.filter (fun n => negb (os_path_isdir w p n)) l) /\
    (all_converted ev ->
     forall f, In f l -> os_path_isdir w p f = false -> settled self ex w' p f).
Proof.
  intros Hp. revert w. induction l as [|f l IH]; intros w.
  { exists w, []. repeat split; auto using extends_refl. intros _ f []. }
  cbn [for_ List.filter].
  destruct (os_path_isdir w p f) eqn:Hdir; cbn [negb].
  - destruct (IH w) as (w' & ev & H & E & L & K).
    exists w', ev. split.
    { eapply bind_ok; [now apply loop_filename_dir|exact H|reflexivity]. }
    split; [exact E|]. split; [exact L|].
    intros Hc f' [<-|Hin] Hf'; [congruence|]. now apply K.
  - destruct (loop_file_spec self ex p f w)
      as (c & w1 & w2 & H1 & E1 & E2 & O & C & _).
    assert (E12 : extends out w w2) by (eapply extends_trans; eassumption).
    destruct (IH w2) as (w' & ev & H & E & L & K).
    eexists w', _. split.
    { eapply bind_ok; [|exact H|reflexivity].
      rewrite loop_filename_file by assumption. exact H1. }
    split; [eapply extends_trans; eassumption|]. split.
    { rewrite yielded_app, yielded_loop_file. cbn [app length]. rewrite L.
      f_equal. f_equal. apply filter_ext. intros n.
      now rewrite (isdir_extends out p n w w2). }
    unfold all_converted. rewrite yielded_app, yielded_loop_file.
    cbn [app]. intros Hc. inversion_clear Hc as [|? ? Hd Hrest].
    intros f' [<-|Hin] Hf'.
    + apply (settled_extends w2 w'); [exact E|].
      rewrite C in Hd. unfold conversion_outcome in O. unfold settled.
      destruct (str_in (new_filename_of self p f) ex); [now left|right].
      destruct O as [[-> _]|(_ & _ & Hput & _)]; [congruence|].
      apply (proj2 (proj2 E2)). rewrite Hput. eauto.
    + apply K; [exact Hrest|exact Hin|].
      now rewrite (isdir_extends out p f' w w2).
Qed.

Lemma source_files_listing (w : world) (p : string) (d : directory) :
  fs w !! p = Some d ->
  source_files (fs w) p
  = List.filter (fun n => negb (os_path_isdir w p n)) (map fst d).
Proof.
  intros Hd. unfold source_files, os_path_isdir, lookup_entry.
  rewrite Hd. reflexivity.
Qed.

Lemma source_files_extends (w w' : world) (p : string) :
  extends out w w' -> p <> out ->
  source_files (fs w') p = source_files (fs w) p.
Proof. intros (H & _) Hp. unfold source_files. now rewrite H. Qed.

Lemma flat_map_source_files_extends (w w' : world) (l : list string) :
  extends out w w' -> (forall p, In p l -> p <> out) ->
  flat_map (source_files (fs w')) l = flat_map (source_files (fs w)) l.
Proof.
  intros E. induction l as [|p l IH]; intros Hl; [reflexivity|].
  cbn [flat_map]. rewrite IH by (intros; apply Hl; now right).
  now rewrite (source_files_extends w w') by (try apply Hl; auto; now left).
Qed.

Lemma outer_loop_spec (l : list string) (w : world) :
  (forall p, In p l -> p <> out /\ is_Some (fs w !! p)) ->
  exists w' ev,
    for_ l (loop_image_path self (Value ex)) w = (Ok tt, w', ev) /\
    extends out w w' /\
    length (yielded ev) = length (flat_map (source_files (fs w)) l) /\
    (all_converted ev ->
     forall p f, In p l -> In f (source_files (fs w) p) ->
                 settled self ex w' p f).
Proof.
  revert w. induction l as [|p l IH]; intros w Hl.
  { exists w, []. repeat split; auto using extends_refl. intros _ p f []. }
  destruct (Hl p (or_introl eq_refl)) as [Hp [d Hd]].
  destruct (inner_loop_spec p (map fst d) w Hp)
    as (w1 & ev1 & H1 & E1 & L1 & K1).
  assert (Hl1 : forall p', In p' l -> p' <> out /\ is_Some (fs w1 !! p')).
  { intros p' Hin. destruct (Hl p' (or_intror Hin)) as [Hp' Hs].
    split; [exact Hp'|]. now apply (proj1 (proj2 E1)). }
  destruct (IH w1 Hl1) as (w' & ev & H & E & L & K).
  eexists w', _. split.
  { cbn [for_]. eapply bind_ok; [|exact H|reflexivity].
    unfold loop_image_path. eapply bind_ok; [|exact H1|reflexivity].
    unfold os_listdir. now rewrite Hd. }
  split; [eapply extends_trans; eassumption|]. split.
  { cbn [app flat_map]. rewrite yielded_app, !List.length_app, L1, L.
    rewrite (source_files_listing w p d Hd). f_equal. f_equal.
    apply flat_map_source_files_extends; [exact E1|].
    intros p' Hin. now apply Hl1. }
  unfold all_converted. cbn [app]. rewrite yielded_app.
  intros [Hc1 Hc]%Forall_app p' f [<-|Hin] Hf.
  - apply (settled_extends w1 w'); [exact E|].
    rewrite (source_files_listing w p d Hd) in Hf.
    apply filter_In in Hf as [Hf Hnd]. apply K1; auto.
    now destruct (os_path_isdir w p f).
  - apply K; auto.
    rewrite (source_files_extends w w1); auto. now apply Hl1.
Qed.
End Loops.

(** ** A whole run *)

Lemma run_spec (self : ProcessImages) (files : gmap string directory) :
  is_Some (files !! PROCESSED_IMAGE_PATH self) ->
  (forall p, In p (ORIGINAL_IMAGE_PATHS self) ->
             p <> PROCESSED_IMAGE_PATH self /\ is_Some (files !! p)) ->
  exists w' ev,
    run self files = (Ok false, w', ev) /\
    extends (PROCESSED_IMAGE_PATH self) (start files) w' /\
    length (yielded ev)
    = length (flat_map (source_files files) (ORIGINAL_IMAGE_PATHS self)) /\
    (all_converted ev ->
     forall p f, In p (ORIGINAL_IMAGE_PATHS self) ->
                 In f (source_files files p) ->
                 settled self
                   (listing (start files) (PROCESSED_IMAGE_PATH self))
                         w' p f).
Proof.
  intros [d Hout] Hpaths.
  destruct (outer_loop_spec self
              (listing (start files) (PROCESSED_IMAGE_PATH self))
              (ORIGINAL_IMAGE_PATHS self) (start files) Hpaths)
    as (w' & ev & H & E & L & K).
  exists w', ev. split; [|auto].
  unfold run, generate_processed_copies. fold (start files).
  apply try_ok.
  eapply bind_ok; [apply get_filenames_spec| |reflexivity].
  cbn [fs start]. rewrite Hout. fold (start files).
  eapply bind_ok; [reflexivity| |reflexivity].
  eapply bind_ok; [exact H|reflexivity|]. now rewrite app_nil_r.
Qed.

(** after a run in which no conversion failed, every source file has its
    converted name in the listing of the output directory *)
Lemma run_leaves_all_converted (self : ProcessImages)
    (files : gmap string directory) :
  str_in (lower (CONVERSION_FORMAT self)) ALLOWED_CONVERSION_FORMATS = true ->
  is_Some (files !! PROCESSED_IMAGE_PATH self) ->
  (forall p, In p (ORIGINAL_IMAGE_PATHS self) ->
             p <> PROCESSED_IMAGE_PATH self /\ is_Some (files !! p)) ->
  (forall p f, In p (ORIGINAL_IMAGE_PATHS self) ->
               In f (source_files files p) -> has_char "/" f = false) ->
  all_converted (events_of (run self files)) ->
  forall p f, In p (ORIGINAL_IMAGE_PATHS self) ->
              In f (source_files files p) ->
              str_in (new_filename_of self p f)
                     (listing (world_of (run self files))
                              (PROCESSED_IMAGE_PATH self)) = true.
Proof.
  intros Hfmt Hout Hpaths Hnames Hconv p f Hp Hf.
  destruct (run_spec self files Hout Hpaths) as (w' & ev & H & E & _ & K).
  rewrite H in *. unfold world_of, events_of in *. cbn [fst snd] in *.
  apply listing_spec.
  destruct (K Hconv p f Hp Hf) as [Hex|Hnew].
  - apply listing_spec in Hex. now apply (proj2 (proj2 E)).
  - rewrite outfile_is_new_filename in Hnew; eauto.
Qed.

Lemma isdir_fs (w w' : world) (p n : string) :
  fs w = fs w' -> os_path_isdir w p n = os_path_isdir w' p n.
Proof. intros H. unfold os_path_isdir, lookup_entry. now rewrite H. Qed.

(** the body for a file that is already converted, without [retag]:
    one result, no call, the files untouched *)
Lemma loop_file_skip (self : ProcessImages) (ex : list string) (p f : string)
    (w : world) :
  retag self = false ->
  str_in (new_filename_of self p f) ex = true ->
  let d := {| conversion_data := Value (passthrough self p f);
              tag_data := tag_data (processed_data w) |} in
  loop_file self (Value ex) p f w
  = (Ok tt, {| fs := fs w; processed_data := d |}, [Yield d]).
Proof.
  intros Hr Hex d.
  unfold loop_file, bind, py_in, ret, convert_or_skip, tag_or_skip.
  rewrite Hex, Hr. reflexivity.
Qed.

Section Skip.
Variable self : ProcessImages.
Variable ex : list string.
Variable F : gmap string directory.
Variable t0 : TagData.
Hypothesis no_retag : retag self = false.

Lemma skip_inner (p : string) (l : list string) (w : world) :
  fs w = F -> tag_data (processed_data w) = t0 ->
  (forall f, In f l -> os_path_isdir w p f = false ->
             str_in (new_filename_of self p f) ex = true) ->
  exists w',
    for_ l (loop_filename self (Value ex) p) w
    = (Ok tt, w',
       map (skip_yield self t0 p)
           (List.filter (fun n => negb (os_path_isdir w p n)) l)) /\
    fs w' = F /\ tag_data (processed_data w') = t0.
Proof.
  revert w. induction l as [|f l IH]; intros w HF Ht Hl.
  { exists w. auto. }
  cbn [for_ List.filter map].
  destruct (os_path_isdir w p f) eqn:Hdir; cbn [negb].
  - destruct (IH w HF Ht) as (w' & H & HF' & Ht').
    { intros f' Hin. apply Hl. now right. }
    exists w'. split; [|auto].
    eapply bind_ok; [now apply loop_filename_dir|exact H|reflexivity].
  - set (d := {| conversion_data := Value (passthrough self p f);
                 tag_data := tag_data (processed_data w) |}).
    set (w2 := {| fs := fs w; processed_data := d |}).
    destruct (IH w2) as (w' & H & HF' & Ht'); [exact HF|exact Ht| |].
    { intros f' Hin Hd'. apply Hl; [now right|].
      now rewrite (isdir_fs w w2). }
    exists w'. split; [|auto].
    eapply bind_ok; [|exact H|].
    + rewrite loop_filename_file by assumption.
      apply loop_file_skip; [exact no_retag|].
      apply Hl; [now left|exact Hdir].
    + cbn [map app]. unfold skip_yield at 1. rewrite <- Ht. reflexivity.
Qed.

Lemma skip_outer (l : list string) (w : world) :
  fs w = F -> tag_data (processed_data w) = t0 ->
  (forall p, In p l -> is_Some (F !! p)) ->
  (forall p f, In p l -> In f (source_files F p) ->
               str_in (new_filename_of self p f) ex = true) ->
  exists w',
    for_ l (loop_image_path self (Value ex)) w
    = (Ok tt, w',
       flat_map (fun p => map (skip_yield self t0 p) (source_files F p)) l) /\
    fs w' = F /\ tag_data (processed_data w') = t0.
Proof.
  revert w. induction l as [|p l IH]; intros w HF Ht Hl Hex.
  { exists w. auto. }
  destruct (Hl p (or_introl eq_refl)) as [d Hd].
  assert (Hsrc : source_files F p
                 = List.filter (fun n => negb (os_path_isdir w p n))
                               (map fst d)).
  { rewrite <- HF. apply source_files_listing. now rewrite HF. }
  destruct (skip_inner p (map fst d) w HF Ht) as (w1 & H1 & HF1 & Ht1).
  { intros f Hin Hdir. apply Hex; [now left|].
    rewrite Hsrc. apply filter_In. split; [exact Hin|now rewrite Hdir]. }
  destruct (IH w1 HF1 Ht1) as (w' & H & HF' & Ht').
  { intros p' Hin. apply Hl. now right. }
  { intros p' f Hin. apply Hex. now right. }
  exists w'. split; [|auto].
  cbn [for_ flat_map]. eapply bind_ok; [|exact H|].
  - unfold loop_image_path. eapply bind_ok; [|exact H1|reflexivity].
    unfold os_listdir. now rewrite HF, Hd.
  - now rewrite Hsrc.
Qed.
End Skip.

(** a run without [retag] over directories whose files are all converted
    already: it yields one pass-through result per source file, makes no
    call and leaves the files as they are *)
Lemma run_skip (self : ProcessImages) (files : gmap string directory) :
  retag self = false ->
  is_Some (files !! PROCESSED_IMAGE_PATH self) ->
  (forall p, In p (ORIGINAL_IMAGE_PATHS self) -> is_Some (files !! p)) ->
  (forall p f, In p (ORIGINAL_IMAGE_PATHS self) ->
               In f (source_files files p) ->
               str_in (new_filename_of self p f)
                      (listing (start files) (PROCESSED_IMAGE_PATH self))
               = true) ->
  events_of (run self files)
  = flat_map (fun p => map (fun f => Yield (skipped_result self p f))
                           (source_files files p))
             (ORIGINAL_IMAGE_PATHS self) /\
  fs (world_of (run self files)) = files.
Proof.
  intros Hr [d Hout] Hpaths Hex.
  destruct (skip_outer self _ files {| iptc_key := ""; tags := [] |} Hr
              (ORIGINAL_IMAGE_PATHS self) (start files)
              eq_refl eq_refl Hpaths Hex) as (w' & H & HF & _).
  assert (Hrun : run self files
                 = (Ok false, w',
                    flat_map
                      (fun p => map (fun f => Yield (skipped_result self p f))
                                    (source_files files p))
                      (ORIGINAL_IMAGE_PATHS self))).
  { unfold run, generate_processed_copies. fold (start files).
    apply try_ok.
    eapply bind_ok; [apply get_filenames_spec| |reflexivity].
    cbn [fs start]. rewrite Hout. fold (start files).
    eapply bind_ok; [reflexivity| |reflexivity].
    eapply bind_ok; [exact H|reflexivity|]. now rewrite app_nil_r. }
  rewrite Hrun. split; [reflexivity|exact HF].
Qed.

(** ** Runs that end early *)

(** a run is the loop over the source directories, started on a fresh dict
    with the listing of the output directory; however the loop ends, the
    generator returns *)
Lemma generate_eq (self : ProcessImages) (w : world) r w' ev :
  for_ (ORIGINAL_IMAGE_PATHS self)
       (loop_image_path self
          (match fs w !! PROCESSED_IMAGE_PATH self with
           | Some _ => Value (listing w (PROCESSED_IMAGE_PATH self))
           | None => PyFalse
           end))
       {| fs := fs w; processed_data := initial_processed_data |}
  = (r, w', ev) ->
  generate_processed_copies self w = (Ok false, w', ev).
Proof.
  intros H. unfold generate_processed_copies, try_except, bind.
  rewrite get_filenames_spec. cbn [new_processed_data]. rewrite H.
  destruct r as [[]|e]; cbn; now rewrite ?app_nil_r.
Qed.

Lemma respects_paths_loop (self : ProcessImages) existing (l : list string) :
  respects (extends (PROCESSED_IMAGE_PATH self)) (fun _ => True)
           (for_ l (loop_image_path self existing)).
Proof.
  pose proof (extends_refl (PROCESSED_IMAGE_PATH self)) as Hrefl.
  pose proof (extends_trans (PROCESSED_IMAGE_PATH self)) as Htrans.
  apply respects_for; auto. intros p. unfold loop_image_path.
  apply respects_bind; auto; [now apply respects_os_listdir|intros names].
  apply respects_for; auto. intros f. unfold loop_filename.
  apply respects_bind; auto; [now apply respects_get_world|intros w'].
  destruct (negb _); [|now apply respects_ret].
  apply respects_loop_file; auto.
Qed.

Lemma loop_image_path_missing (self : ProcessImages) existing (p : string)
    (w : world) :
  fs w !! p = None ->
  loop_image_path self existing p w = (Raise FileNotFoundError, w, []).
Proof.
  intros H. unfold loop_image_path. apply bind_raise.
  unfold os_listdir. now rewrite H.
Qed.

(** the loop over the source directories ends at the first one that
    cannot be listed: the directories after it are never reached *)
Lemma paths_loop_stops (self : ProcessImages) existing
    (pre post : list string) (bad : string) (w : world) :
  fs w !! bad = None ->
  exists r r' w' ev,
    for_ (pre ++ bad :: post) (loop_image_path self existing) w = (r, w', ev) /\
    for_ pre (loop_image_path self existing) w = (r', w', ev).
Proof.
  intros Hbad. rewrite for_app. unfold bind at 1.
  pose proof (respects_paths_loop self existing pre w) as [(_ & Hdom & _) _].
  unfold world_of in Hdom.
  destruct (for_ pre _ w) as [[[[]|e] w1] ev1]; cbn [fst snd] in Hdom.
  - assert (Hbad1 : fs w1 !! bad = None).
    { destruct (fs w1 !! bad) eqn:E; [|reflexivity].
      destruct (proj1 (Hdom bad)) as [x Hx]; [eauto|congruence]. }
    cbn [for_].
    rewrite (bind_raise (loop_image_path self existing bad) _ w1
               FileNotFoundError w1 [])
      by now apply loop_image_path_missing.
    rewrite app_nil_r. do 4 eexists. split; reflexivity.
  - do 4 eexists. split; reflexivity.
Qed.

(** without a listing of the output directory nothing is converted,
    tagged or yielded *)
Lemma no_listing_inner (self : ProcessImages) (p : string) (l : list string)
    (w : world) :
  exists r, for_ l (loop_filename self PyFalse p) w = (r, w, []).
Proof.
  induction l as [|f l [r IH]]; [eexists; reflexivity|]. cbn [for_].
  destruct (os_path_isdir w p f) eqn:Hdir.
  - exists r.
    eapply bind_ok; [now apply loop_filename_dir|exact IH|reflexivity].
  - eexists. apply bind_raise. rewrite loop_filename_file by assumption.
    apply loop_file_no_listing.
Qed.

Lemma no_listing_outer (self : ProcessImages) (l : list string) (w : world) :
  exists r, for_ l (loop_image_path self PyFalse) w = (r, w, []).
Proof.
  induction l as [|p l [r IH]]; [eexists; reflexivity|]. cbn [for_].
  unfold loop_image_path at 1, os_listdir.
  destruct (fs w !! p) as [d|] eqn:Hd.
  - destruct (no_listing_inner self p (map fst d) w) as [[[]|e] Hin].
    + exists r.
      eapply bind_ok;
        [eapply bind_ok; [now rewrite Hd|exact Hin|reflexivity]
        |exact IH|reflexivity].
    + eexists. apply bind_raise.
      eapply bind_ok; [now rewrite Hd|exact Hin|reflexivity].
  - eexists. apply bind_raise. now apply loop_image_path_missing.
Qed.

Lemma run_without_listing (self : ProcessImages)
    (files : gmap string directory) :
  files !! PROCESSED_IMAGE_PATH self = None ->
  events_of (run self files) = [] /\ fs (world_of (run self files)) = files.
Proof.
  intros Hout.
  destruct (no_listing_outer self (ORIGINAL_IMAGE_PATHS self) (start files))
    as [r Hr].
  unfold run. fold (start files).
  rewrite (generate_eq self (start files) r (start files) []).
  - split; reflexivity.
  - cbn [fs start]. rewrite Hout. exact Hr.
Qed.

(** ** Small facts used by several properties *)

Lemma lookup_image_extends (out p n : string) (w w' : world) :
  extends out w w' -> p <> out -> lookup_image w' p n = lookup_image w p n.
Proof.
  intros (H & _) Hp. unfold lookup_image, lookup_entry. now rewrite H.
Qed.

Lemma read_result_lookup (w w' : world) (p f : string) :
  lookup_image w' p f = lookup_image w p f ->
  read_result w' p f = read_result w p f.
Proof. intros H. unfold read_result. now rewrite H. Qed.

Lemma loop_image_path_with_paths (self : ProcessImages) (l : list string)
    existing :
  loop_image_path (with_paths self l) existing = loop_image_path self existing.
Proof. reflexivity. Qed.

Lemma flat_map_ext_In {A B} (g h : A -> list B) (l : list A) :
  (forall x, In x l -> g x = h x) -> flat_map g l = flat_map h l.
Proof.
  induction l as [|x l IH]; intros H; [reflexivity|]. cbn [flat_map].
  rewrite (H x) by now left. rewrite IH; [reflexivity|].
  intros y Hy. apply H. now right.
Qed.

Lemma flat_map_yields {A B} (g : A -> B -> ProcessedData) (S : A -> list B)
    (l : list A) :
  flat_map (fun p => map (fun f => Yield (g p f)) (S p)) l
  = map Yield (flat_map (fun p => map (g p) (S p)) l).
Proof.
  induction l as [|x l IH]; [reflexivity|]. cbn [flat_map].
  now rewrite IH, map_app, map_map.
Qed.

Lemma length_flat_map_map {A B C} (g : A -> B -> C) (S : A -> list B)
    (l : list A) :
  length (flat_map (fun p => map (g p) (S p)) l) = length (flat_map S l).
Proof.
  induction l as [|x l IH]; [reflexivity|]. cbn [flat_map].
  now rewrite !List.length_app, IH, length_map.
Qed.

(** a trace of results only holds no call *)
Lemma yields_only (ds : list ProcessedData) :
  List.filter is_convert (map Yield ds) = [] /\
  List.filter is_read (map Yield ds) = [] /\
  List.filter is_write (map Yield ds) = [] /\
  yielded (map Yield ds) = ds.
Proof.
  induction ds as [|d ds (H1 & H2 & H3 & H4)]; [easy|].
  cbn [map List.filter is_convert is_read is_write yielded].
  now rewrite H4.
Qed.

Lemma constructed_format (paths : list string) (out fmt : string) (rt : pyval)
    (self : ProcessImages) :
  __init__ paths out (PyStr fmt) rt = inr self ->
  ORIGINAL_IMAGE_PATHS self = paths /\
  PROCESSED_IMAGE_PATH self = out /\
  str_in (lower (CONVERSION_FORMAT self)) ALLOWED_CONVERSION_FORMATS = true.
Proof.
  unfold __init__.
  destruct (str_in (lower fmt) ALLOWED_CONVERSION_FORMATS) eqn:E;
    intros [= <-]; repeat split; solve [exact E|reflexivity].
Qed.

(** * The claims *)

(** ** C1: errors and the batch *)

(** C1 as stated fails: "/missing" cannot be listed, and the run ends
    there; the image in "/photos", the directory after it, gets no
    result. *)
Lemma C1_listing_failure_ends_the_run :
  ~ enumeration_recovered (pipeline ["/missing"; "/photos"] false) files_one.
Proof. unfold enumeration_recovered. vm_compute. discriminate. Qed.

(** C1, amended: no exception leaves the generator: a run always ends by
    returning.  A conversion that fails puts [False] in the place of the
    conversion record of that file's result, and the body for the file
    returns normally, so that, when the output directory and all source
    directories (none of them the output directory) can be listed, the
    run yields one result for every source file.  A source directory
    that cannot be listed ends the run without an exception: the run is
    the run over the directories before it.  Of three source files with
    the second corrupt, three results are yielded, the second with
    [False] as its conversion. *)
Theorem C1_errors_stay_inside :
  (forall self files, outcome_of (run self files) = Ok false) /\
  (forall self ex p f w,
     (forall img, lookup_image w p f = Some img -> decodable img = false) ->
     str_in (new_filename_of self p f) ex = false ->
     exists w' ev,
       loop_file self (Value ex) p f w = (Ok tt, w', ev) /\
       yielded ev = [processed_data w'] /\
       conversion_data (processed_data w') = PyFalse) /\
  (forall self files,
     is_Some (files !! PROCESSED_IMAGE_PATH self) ->
     (forall p, In p (ORIGINAL_IMAGE_PATHS self) ->
                p <> PROCESSED_IMAGE_PATH self /\ is_Some (files !! p)) ->
     length (yielded (events_of (run self files)))
     = length (flat_map (source_files files) (ORIGINAL_IMAGE_PATHS self))) /\
  (forall self pre bad post files,
     files !! bad = None ->
     run (with_paths self (pre ++ bad :: post)) files
     = run (with_paths self pre) files) /\
  map conversion_data
      (yielded (events_of (run (pipeline ["/photos"] false) files_three)))
  = [Value (passthrough (pipeline ["/photos"] false) "/photos" "a.tif");
     PyFalse;
     Value (passthrough (pipeline ["/photos"] false) "/photos" "c.tif")].
Proof.
  split; [|split; [|split; [|split]]].
  - intros self files. apply generate_returns.
  - intros self ex p f w Hbad Hex.
    destruct (loop_file_spec self ex p f w)
      as (c & w1 & w2 & H & _ & _ & O & C & _).
    eexists w2, _. split; [exact H|]. split; [apply yielded_loop_file|].
    rewrite C. unfold conversion_outcome in O. rewrite Hex in O.
    destruct O as [[-> _]|(_ & (img & Himg & Hdec) & _)]; [reflexivity|].
    rewrite (Hbad img Himg) in Hdec. discriminate.
  - intros self files Hout Hpaths.
    destruct (run_spec self files Hout Hpaths) as (w' & ev & H & _ & L & _).
    now rewrite H.
  - intros self pre bad post files Hbad. unfold run.
    match goal with
    | |- generate_processed_copies _ ?w = _ =>
        destruct (paths_loop_stops self
                    (match fs w !! PROCESSED_IMAGE_PATH self with
                     | Some _ => Value (listing w (PROCESSED_IMAGE_PATH self))
                     | None => PyFalse
                     end)
                    pre post bad w Hbad) as (r & r' & w' & ev & H1 & H2)
    end.
    rewrite (generate_eq (with_paths self (pre ++ bad :: post)) _ r w' ev)
      by exact H1.
    rewrite (generate_eq (with_paths self pre) _ r' w' ev) by exact H2.
    reflexivity.
  - vm_compute. reflexivity.
Qed.

Lemma C1_three_files_three_results :
  length (yielded (events_of (run (pipeline ["/photos"] false) files_three)))
  = 3%nat.
Proof.
  assert (H := proj1 (proj2 (proj2 C1_errors_stay_inside))
                 (pipeline ["/photos"] false) files_three).
  cbv beta in H. rewrite H.
  - vm_compute. reflexivity.
  - vm_compute. eauto.
  - intros p [<-|[]]. split; [discriminate|]. vm_compute. eauto.
Defined.

(** ** C2: the second run *)

(** C2 as stated fails: the corrupt image of "/photos" is not converted
    by the first run, so its name is missing from the listing the second
    run takes, and the second run calls the converter for it again. *)
Lemma C2_failed_conversion_is_retried :
  ~ second_run_idle (pipeline ["/photos"] false) files_three.
Proof.
  intros H. destruct (H eq_refl) as (Hc & _).
  vm_compute in Hc. discriminate Hc.
Qed.

(** C2, amended: take a pipeline constructed with [retag=False], an
    output directory that can be listed, source directories that can be
    listed and are not the output directory, and file names without
    separator.  If no conversion of the first run failed, the second run
    over the directories as the first run left them consists of one
    pass-through result per source file and nothing else: it calls
    neither the converter nor the tag reader nor the tag writer, and it
    leaves every file as it was. *)
Theorem C2_second_run_converts_nothing :
  forall (paths : list string) (out fmt : string) (self : ProcessImages)
         (files : gmap string directory),
    __init__ paths out (PyStr fmt) (PyBool false) = inr self ->
    is_Some (files !! out) ->
    (forall p, In p paths -> p <> out /\ is_Some (files !! p)) ->
    (forall p f, In p paths -> In f (source_files files p) ->
                 has_char "/" f = false) ->
    all_converted (events_of (run self files)) ->
    let first := run self files in
    let second := run self (fs (world_of first)) in
    events_of second
    = flat_map (fun p => map (fun f => Yield (skipped_result self p f))
                             (source_files files p)) paths /\
    List.filter is_convert (events_of second) = [] /\
    List.filter is_read (events_of second) = [] /\
    List.filter is_write (events_of second) = [] /\
    fs (world_of second) = fs (world_of first) /\
    length (yielded (events_of second))
    = length (flat_map (source_files files) paths).
Proof.
  intros paths out fmt self files Hinit Hout Hpaths Hnames Hconv. cbv zeta.
  destruct (constructed_format _ _ _ _ _ Hinit) as (Hp & Ho & Hfmt).
  assert (Hr : retag self = false) by now injection Hinit as <-.
  rewrite <- Hp in Hpaths, Hnames |- *. rewrite <- Ho in Hout, Hpaths.
  destruct (run_spec self files Hout Hpaths) as (w1 & ev1 & H1 & E1 & _ & _).
  pose proof (run_leaves_all_converted self files Hfmt Hout Hpaths Hnames Hconv)
    as Hdone.
  rewrite H1 in Hdone |- *.
  change (world_of (Ok false, w1, ev1)) with w1 in Hdone |- *.
  assert (Hsame : forall p, In p (ORIGINAL_IMAGE_PATHS self) ->
                            source_files (fs w1) p = source_files files p).
  { intros p Hin.
    apply (source_files_extends self (start files) w1 p E1), Hpaths, Hin. }
  destruct (run_skip self (fs w1) Hr) as [Hev Hfs].
  { apply (proj1 (proj2 E1)). exact Hout. }
  { intros p Hin. apply (proj1 (proj2 E1)). now apply Hpaths. }
  { intros p f Hin Hf. rewrite Hsame in Hf by exact Hin.
    exact (Hdone p f Hin Hf). }
  assert (Hev' : events_of (run self (fs w1))
                 = map Yield
                     (flat_map (fun p => map (skipped_result self p)
                                             (source_files files p))
                               (ORIGINAL_IMAGE_PATHS self))).
  { rewrite Hev, <- flat_map_yields. apply flat_map_ext_In.
    intros p Hin. now rewrite Hsame. }
  destruct (yields_only (flat_map (fun p => map (skipped_result self p)
                                               (source_files files p))
                                  (ORIGINAL_IMAGE_PATHS self)))
    as (Y1 & Y2 & Y3 & Y4).
  rewrite Hev'. split; [now rewrite flat_map_yields|].
  split; [exact Y1|]. split; [exact Y2|]. split; [exact Y3|].
  split; [exact Hfs|]. rewrite Y4. apply length_flat_map_map.
Qed.

Lemma C2_second_run_over_converted_images :
  events_of (run (pipeline ["/photos"] false)
                 (fs (world_of (run (pipeline ["/photos"] false) files_good))))
  = [Yield (skipped_result (pipeline ["/photos"] false) "/photos" "a.tif");
     Yield (skipped_result (pipeline ["/photos"] false) "/photos" "c.tif")] /\
  fs (world_of (run (pipeline ["/photos"] false)
                    (fs (world_of (run (pipeline ["/photos"] false)
                                       files_good)))))
  = fs (world_of (run (pipeline ["/photos"] false) files_good)).
Proof.
  destruct (C2_second_run_converts_nothing ["/photos"] "/processed" "jpg"
              (pipeline ["/photos"] false) files_good)
    as (Hev & _ & _ & _ & Hfs & _).
  - reflexivity.
  - vm_compute. eauto.
  - intros p [<-|[]]. split; [discriminate|]. vm_compute. eauto.
  - intros p f [<-|[]] Hf. vm_compute in Hf.
    destruct Hf as [<-|[<-|[]]]; reflexivity.
  - vm_compute. repeat constructor; discriminate.
  - split; [exact Hev|exact Hfs].
Defined.

(** ** C3: the converted name *)



(** ** C4: the provenance marker *)

(** C4: a record with tags is handed to [write_iptc_tags] with exactly
    one marker appended, and that record is the one yielded; when it is
    the keywords record and the converted image can be written, the
    keywords of the converted image are then the original tags followed
    by the marker.  A record without tags causes no call and is put into
    the result as it is.  Run on the image tagged "DATE: 1974",
    "PLACE: The Moon", the pipeline leaves the converted file with these
    two keywords and the marker. *)
Theorem C4_provenance_marker :
  (forall (self : ProcessImages) (nf : string) (t : TagData) (w : world),
     tags t <> [] ->
     let t' := {| iptc_key := iptc_key t;
                  tags := tags t ++ [copied_marker] |} in
     exists w',
       loop_tag self nf t w
       = (Ok tt, w',
          [Call_write_iptc_tags (PROCESSED_IMAGE_PATH self) nf t']) /\
       tag_data (processed_data w') = t' /\
       (iptc_key t = Keywords ->
        (exists img l,
           lookup_image w (PROCESSED_IMAGE_PATH self) nf = Some img /\
           iptc img = Some l /\ meta_writable img = true) ->
        keywords_of w' (PROCESSED_IMAGE_PATH self) nf
        = Some (tags t ++ [copied_marker]))) /\
  (forall (self : ProcessImages) (nf : string) (t : TagData) (w : world),
     tags t = [] ->
     loop_tag self nf t w
     = (Ok tt,
        {| fs := fs w;
           processed_data :=
             {| conversion_data := conversion_data (processed_data w);
                tag_data := t |} |},
        [])) /\
  keywords_of (world_of (run (pipeline ["/photos"] false) files_one))
              "/processed"
              (new_filename_of (pipeline ["/photos"] false) "/photos" "a.tif")
  = Some ["DATE: 1974"; "PLACE: The Moon"; "SPM: TAGS COPIED FROM ORIGINAL"].
Proof.
  split; [|split].
  - intros self nf t w Ht t'.
    destruct (loop_tag_spec self nf t w) as (w' & H & _ & P & _).
    assert (Hs : stamped t = t').
    { unfold stamped, t'. destruct (tags t); [congruence|reflexivity]. }
    assert (Hh : has_tags t = true).
    { unfold has_tags. destruct (tags t); [congruence|reflexivity]. }
    rewrite Hh, Hs in H. exists w'. split; [exact H|].
    split; [now rewrite P, Hs|].
    intros Hk (img & l & Himg & Hl & Hw).
    unfold loop_tag in H. destruct (tags t) eqn:Et; [congruence|].
    fold t' in H. unfold bind in H. rewrite set_tag_data_spec in H.
    match type of H with
    | context [write_iptc_tags ?a ?b ?c ?d] =>
        destruct (write_iptc_tags_spec a b c d)
          as (b' & w'' & Hwr & _ & _ & _ & _ & Hgood);
        destruct (write_iptc_tags_success a b c d img l Hk Himg Hl Hw)
          as (w3 & Hok)
    end.
    rewrite Hwr in Hok. injection Hok as -> ->.
    rewrite Hwr in H. cbn in H. injection H as <-.
    now destruct (Hgood eq_refl) as (_ & ? & _).
  - intros self nf t w Ht. unfold loop_tag. now rewrite Ht.
  - vm_compute. reflexivity.
Qed.

Lemma C4_marker_is_appended_once :
  exists w',
    loop_tag (pipeline ["/photos"] false) "x.jpg"
             {| iptc_key := Keywords; tags := moon_tags |} (start files_one)
    = (Ok tt, w',
       [Call_write_iptc_tags "/processed" "x.jpg"
          {| iptc_key := Keywords;
             tags := ["DATE: 1974"; "PLACE: The Moon";
                      "SPM: TAGS COPIED FROM ORIGINAL"] |}]).
Proof.
  destruct (proj1 C4_provenance_marker (pipeline ["/photos"] false) "x.jpg"
              {| iptc_key := Keywords; tags := moon_tags |} (start files_one))
    as (w' & H & _).
  - discriminate.
  - exists w'. exact H.
Defined.

(** ** C5: the metadata of a file that cannot be read *)

(** C5 fails on the code.  When [read_iptc_tags] returns [False] for a
    file outside the output directory, the result for that file is still
    yielded, but its metadata is whatever the shared dict held before:
    the empty record only if no earlier file was tagged.  In "/photos",
    "b.tif" follows the tagged "a.tif" and its metadata cannot be read:
    the result yielded for "b.tif" carries the keywords of "a.tif".  A
    consumer that collects the generator into a list sees one and the
    same dict twice. *)
Theorem C5_unreadable_metadata_yields_stale_tags :
  (forall self ex p f w,
     p <> PROCESSED_IMAGE_PATH self ->
     outcome_of (read_iptc_tags f p w) = Ok PyFalse ->
     exists w' ev,
       loop_file self (Value ex) p f w = (Ok tt, w', ev) /\
       yielded ev = [processed_data w'] /\
       tag_data (processed_data w') = tag_data (processed_data w)) /\
  let r := run (pipeline ["/photos"] false) files_stale in
  let marked := {| iptc_key := Keywords;
                   tags := ["DATE: 1974"; "PLACE: The Moon";
                            "SPM: TAGS COPIED FROM ORIGINAL"] |} in
  read_result (start files_stale) "/photos" "b.tif" = PyFalse /\
  yielded (events_of r)
  = [ {| conversion_data :=
           Value (passthrough (pipeline ["/photos"] false) "/photos" "a.tif");
         tag_data := marked |};
      {| conversion_data :=
           Value (passthrough (pipeline ["/photos"] false) "/photos" "b.tif");
         tag_data := marked |} ] /\
  collected r
  = [ {| conversion_data :=
           Value (passthrough (pipeline ["/photos"] false) "/photos" "b.tif");
         tag_data := marked |};
      {| conversion_data :=
           Value (passthrough (pipeline ["/photos"] false) "/photos" "b.tif");
         tag_data := marked |} ].
Proof.
  split.
  - intros self ex p f w Hp Hread.
    rewrite read_iptc_tags_spec in Hread. unfold outcome_of in Hread.
    cbn in Hread. injection Hread as Hread.
    destruct (loop_file_spec self ex p f w)
      as (c & w1 & w2 & H & E1 & _ & _ & _ & T & _).
    eexists w2, _. split; [exact H|]. split; [apply yielded_loop_file|].
    rewrite T.
    rewrite (read_result_lookup w w1 p f)
      by now apply (lookup_image_extends (PROCESSED_IMAGE_PATH self)).
    rewrite Hread. now destruct (retag self || negb _).
  - vm_compute. repeat split; reflexivity.
Qed.

(** ** C6: the retag flag *)

(** C6 as stated fails: under [retag], the converted image of a source
    without IPTC entries is not written to; the pipeline reads the
    source and finds nothing to write. *)
Lemma C6_no_write_without_tags :
  ~ retagged (pipeline ["/photos"] true) (start files_plain_done)
             "/photos" "plain.tif".
Proof.
  intros H. destruct (H eq_refl) as (_ & _ & Hw).
  - vm_compute. reflexivity.
  - vm_compute in Hw. discriminate Hw.
Qed.

(** C6, amended: under [retag], a file whose converted name is in the
    listing of the output directory is not converted again: the result
    carries the pass-through record.  Its tags are read from the source
    once, and [write_iptc_tags] is called on the converted file once for
    every record read that has tags, with the marker appended; when the
    read fails or no record has tags, nothing is written. *)
Theorem C6_retag_existing :
  forall (self : ProcessImages) (ex : list string) (p f : string) (w : world),
    retag self = true ->
    str_in (new_filename_of self p f) ex = true ->
    exists w',
      loop_file self (Value ex) p f w
      = (Ok tt, w',
         Call_read_iptc_tags f p
         :: map (fun t => Call_write_iptc_tags (PROCESSED_IMAGE_PATH self)
                            (new_filename_of self p f)
                            {| iptc_key := iptc_key t;
                               tags := tags t ++ [copied_marker] |})
                (List.filter has_tags (records (read_result w p f)))
         ++ [Yield (processed_data w')]) /\
      read_iptc_tags f p w
      = (Ok (read_result w p f), w, [Call_read_iptc_tags f p]) /\
      conversion_data (processed_data w') = Value (passthrough self p f).
Proof.
  intros self ex p f w Hr Hex.
  destruct (loop_file_spec self ex p f w)
    as (c & w1 & w2 & H & _ & _ & O & C & _).
  rewrite Hex, Hr in H. unfold conversion_outcome in O. rewrite Hex in O.
  destruct O as [-> Hfs]. exists w2. split; [|split].
  - rewrite H. cbn [orb app]. unfold tag_calls. cbn [app].
    rewrite (read_result_lookup w w1 p f)
      by (unfold lookup_image, lookup_entry; now rewrite Hfs).
    do 3 f_equal. apply map_ext_in. intros t [_ Ht]%filter_In.
    unfold stamped, has_tags in *. now destruct (tags t).
  - apply read_iptc_tags_spec.
  - exact C.
Qed.

Lemma C6_retag_writes_the_tags_again :
  exists w',
    loop_file (pipeline ["/photos"] true)
              (Value (listing (start files_moon_done) "/processed"))
              "/photos" "a.tif" (start files_moon_done)
    = (Ok tt, w',
       [Call_read_iptc_tags "a.tif" "/photos";
        Call_write_iptc_tags "/processed"
          "26525bcdfc8ab4b77c0a5cfdccb3ee89dcea8178_a.jpg"
          {| iptc_key := "Iptc.Application2.Keywords";
             tags := ["DATE: 1974"; "PLACE: The Moon";
                      "SPM: TAGS COPIED FROM ORIGINAL"] |};
        Yield (processed_data w')]).
Proof.
  destruct (C6_retag_existing (pipeline ["/photos"] true)
              (listing (start files_moon_done) "/processed")
              "/photos" "a.tif" (start files_moon_done))
    as (w' & H & _).
  - reflexivity.
  - vm_compute. reflexivity.
  - exists w'. rewrite H. vm_compute. reflexivity.
Defined.

(** ** C7: the format fallback *)

(** C7 as stated fails: "PNG" is not one of the five strings of the
    allow-list, yet the constructor keeps it, because it tests the
    lower-cased string. *)
Lemma C7_uppercase_format_is_kept : ~ falls_back_to_jpg "PNG".
Proof.
  intros H. destruct (H ltac:(vm_compute; intuition discriminate)
                        [] "/processed" (PyBool false))
    as (self & Hinit & Hfmt).
  injection Hinit as <-. discriminate Hfmt.
Qed.

(** C7, amended: for every format string whose lower-cased form is not in
    the allow-list, the constructor succeeds and takes "jpg" as the
    conversion format; every converted name then ends in ".jpg" and every
    call of the converter in a run asks for "jpg".  A string whose
    lower-cased form is in the allow-list is kept as it was written. *)
Theorem C7_format_fallback :
  forall (fmt : string) (paths : list string) (out : string) (rt : pyval),
    exists self,
      __init__ paths out (PyStr fmt) rt = inr self /\
      (str_in (lower fmt) ALLOWED_CONVERSION_FORMATS = false ->
       CONVERSION_FORMAT self = "jpg" /\
       (forall p f,
          new_filename_of self p f
          = SHA1.hexdigest p +:+ "_" +:+ (splitext f).1 +:+ ".jpg") /\
       (forall files,
          Forall (fun e =>
                    match e with
                    | Call_convert_format _ _ _ _ conversion_format =>
                        conversion_format = "jpg"
                    | _ => True
                    end)
                 (events_of (run self files)))) /\
      (str_in (lower fmt) ALLOWED_CONVERSION_FORMATS = true ->
       CONVERSION_FORMAT self = fmt).
Proof.
  intros fmt paths out rt. eexists. split; [reflexivity|].
  cbn [CONVERSION_FORMAT]. split; intros Hfmt; rewrite Hfmt; [|reflexivity].
  split; [reflexivity|]. split.
  - intros p f. reflexivity.
  - intros files. unfold run.
    match goal with
    | |- Forall ?P (events_of (generate_processed_copies ?s ?w)) =>
        apply (proj2 (respects_generate s P ltac:(easy) ltac:(easy)
                        ltac:(easy) ltac:(easy) w))
    end.
Qed.

Lemma C7_format_fallback_bmp :
  exists self,
    __init__ ["/photos"] "/processed" (PyStr "bmp") (PyBool false) = inr self /\
    CONVERSION_FORMAT self = "jpg" /\
    new_filename_of self "/photos" "a.tif"
    = "26525bcdfc8ab4b77c0a5cfdccb3ee89dcea8178_a.jpg".
Proof.
  destruct (C7_format_fallback "bmp" ["/photos"] "/processed" (PyBool false))
    as (self & Hinit & Hjpg & _).
  exists self. split; [exact Hinit|].
  destruct (Hjpg eq_refl) as (Hfmt & Hname & _). split; [exact Hfmt|].
  rewrite Hname. vm_compute. reflexivity.
Defined.

(** ** C8: an image without metadata *)

(** C8: for a source image without IPTC entries, [read_iptc_tags] returns
    exactly one record, with empty key and no tags; [read_iptc_tags]
    never returns an empty list; and the pipeline, working on that file,
    calls [write_iptc_tags] not once, the record in the result it yields
    after the tagging step being that empty record. *)
Theorem C8_no_metadata_sentinel :
  forall (self : ProcessImages) (ex : list string) (p f : string)
         (w : world) (img : image),
    lookup_image w p f = Some img ->
    iptc img = Some [] ->
    read_iptc_tags f p w
    = (Ok (Value [ {| iptc_key := ""; tags := [] |} ]), w,
       [Call_read_iptc_tags f p]) /\
    (forall f' p' w' l,
       outcome_of (read_iptc_tags f' p' w') = Ok (Value l) -> l <> []) /\
    exists w' ev,
      loop_file self (Value ex) p f w = (Ok tt, w', ev) /\
      existsb is_write ev = false /\
      (retag self || negb (str_in (new_filename_of self p f) ex) = true ->
       tag_data (processed_data w') = {| iptc_key := ""; tags := [] |}).
Proof.
  intros self ex p f w img Himg Hiptc.
  assert (Hread : forall w1 img1,
            lookup_image w1 p f = Some img1 -> iptc img1 = Some [] ->
            read_result w1 p f = Value [ {| iptc_key := ""; tags := [] |} ]).
  { intros w1 img1 H1 H2. unfold read_result. now rewrite H1, H2. }
  split; [|split].
  - rewrite read_iptc_tags_spec. now rewrite (Hread w img).
  - intros f' p' w' l. rewrite read_iptc_tags_spec. unfold outcome_of. cbn.
    intros [= H] ->. now apply (read_result_nonempty w' p' f').
  - destruct (loop_file_spec self ex p f w)
      as (c & w1 & w2 & H & _ & _ & O & _ & T & _).
    assert (Hr1 : read_result w1 p f
                  = Value [ {| iptc_key := ""; tags := [] |} ]).
    { unfold conversion_outcome in O.
      assert (Hsame : fs w1 = fs w -> lookup_image w1 p f = Some img)
        by (intros E; unfold lookup_image, lookup_entry; rewrite E;
            exact Himg).
      destruct (str_in _ ex).
      - destruct O as [_ E]. eapply Hread; eauto.
      - destruct O as [[_ E]|(_ & _ & Hput & Hfr)]; [eapply Hread; eauto|].
        destruct (decide (p = PROCESSED_IMAGE_PATH self
                          /\ f = outfile_of self p f)) as [[Hp Hf]|Hne].
        + rewrite <- Hp, <- Hf in Hput. now apply (Hread w1 converted_image).
        + apply (Hread w1 img); [|exact Hiptc]. now rewrite Hfr. }
    eexists w2, _. split; [exact H|]. unfold tag_calls. rewrite Hr1. split.
    + now destruct (str_in _ ex), (retag self).
    + intros Htag. rewrite T, Htag, Hr1. reflexivity.
Qed.

Lemma C8_plain_image_is_not_written :
  exists w' ev,
    loop_file (pipeline ["/photos"] false) (Value []) "/photos" "c.tif"
              (start files_good)
    = (Ok tt, w', ev) /\
    existsb is_write ev = false.
Proof.
  destruct (C8_no_metadata_sentinel (pipeline ["/photos"] false) []
              "/photos" "c.tif" (start files_good) plain_image)
    as (_ & _ & w' & ev & H & Hw & _).
  - vm_compute. reflexivity.
  - reflexivity.
  - exists w', ev. split; [exact H|exact Hw].
Defined.

(** ** C9: write_iptc_tags *)




(** ** C10: a [retag] argument that is not a boolean *)

(** C10: for every value that is not a boolean, the constructor builds the
    very object it builds for [retag=False]; the flag of that object is
    off, any run with it is the run of the [retag=False] object, and a
    file found converted is neither converted again nor tagged again: its
    only event is the result it yields, and the files stay as they are. *)
Theorem C10_non_boolean_retag :
  forall (paths : list string) (out : string) (fmt rt : pyval),
    (forall b, rt <> PyBool b) ->
    __init__ paths out fmt rt = __init__ paths out fmt (PyBool false) /\
    forall self,
      __init__ paths out fmt rt = inr self ->
      retag self = false /\
      (forall self' files,
         __init__ paths out fmt (PyBool false) = inr self' ->
         run self files = run self' files) /\
      (forall ex p f w,
         str_in (new_filename_of self p f) ex = true ->
         let d := {| conversion_data := Value (passthrough self p f);
                     tag_data := tag_data (processed_data w) |} in
         loop_file self (Value ex) p f w
         = (Ok tt, {| fs := fs w; processed_data := d |}, [Yield d])).
Proof.
  intros paths out fmt rt Hrt.
  assert (E : __init__ paths out fmt rt
              = __init__ paths out fmt (PyBool false)).
  { unfold __init__. destruct fmt; try reflexivity.
    destruct rt as [|b| |]; try reflexivity. now destruct (Hrt b). }
  split; [exact E|]. intros self Hself.
  assert (Hr : retag self = false).
  { rewrite E in Hself. unfold __init__ in Hself.
    destruct fmt; try discriminate. now injection Hself as <-. }
  split; [exact Hr|]. split.
  - intros self' files Hself'. rewrite E in Hself. congruence.
  - intros ex p f w Hex. now apply loop_file_skip.
Qed.

Lemma C10_retag_given_as_integer :
  __init__ ["/photos"] "/processed" (PyStr "jpg") (PyInt 1)
  = __init__ ["/photos"] "/processed" (PyStr "jpg") (PyBool false).
Proof.
  apply (C10_non_boolean_retag ["/photos"] "/processed" (PyStr "jpg")
                               (PyInt 1)).
  intros b. discriminate.
Defined.

(** * Further properties of the worker *)

(** ** The helpers of the pipeline *)

Lemma filter_is_sublist {A} (g : A -> bool) (l : list A) :
  sublist (List.filter g l) l.
Proof.
  induction l as [|x l IH]; cbn; [constructor|].
  destruct (g x); now constructor.
Qed.

(** X1: [get_filenames] never raises and changes nothing.  It returns
    [False] exactly when the directory cannot be listed.  Otherwise it
    returns names of the directory in listing order, and a name is among
    them exactly when it is the name of a file of the directory, never the
    name of a sub-directory. *)
Theorem X1_get_filenames_lists_the_plain_files (directory : string)
    (w : world) :
  exists r,
    get_filenames directory w = (Ok r, w, []) /\
    (r = PyFalse <-> fs w !! directory = None) /\
    forall l, r = Value l ->
      (forall n, In n l <-> is_Some (lookup_image w directory n)) /\
      (forall n, In n l -> os_path_isdir w directory n = false) /\
      exists d, fs w !! directory = Some d /\ sublist l (map fst d).
Proof.
  rewrite get_filenames_spec.
  destruct (fs w !! directory) as [d|] eqn:Hd.
  - exists (Value (listing w directory)). split; [reflexivity|].
    split; [split; discriminate|]. intros l [= <-]. split; [|split].
    + intros n. rewrite <- str_in_In. apply listing_spec.
    + intros n. unfold listing. rewrite Hd. intros Hn.
      apply List.filter_In in Hn. now apply negb_true_iff.
    + exists d. split; [reflexivity|]. unfold listing. rewrite Hd.
      apply filter_is_sublist.
  - exists PyFalse. split; [reflexivity|]. split; [easy|]. discriminate.
Qed.

Lemma convert_format_cases (f nf p sp fmt : string) (w : world) :
  let outfile := (splitext nf).1 +:+ "." +:+ fmt in
  exists c w',
    convert_format f nf p sp fmt w
    = (Ok c, w', [Call_convert_format f nf p sp fmt]) /\
    (convertible w p f sp outfile ->
     c = Value {| orig_path := p; processed_path := sp;
                  filename := outfile |} /\
     lookup_image w' sp outfile = Some converted_image /\
     processed_data w' = processed_data w /\
     forall p' n', ~ (p' = sp /\ n' = outfile) ->
                   lookup_image w' p' n' = lookup_image w p' n') /\
    (~ convertible w p f sp outfile -> c = PyFalse /\ w' = w).
Proof.
  intros outfile.
  unfold convertible, lookup_entry.
  unfold convert_format, bind, emit, try_except, ret, PIL_open_save.
  fold outfile.
  destruct (lookup_image w p f) as [img|] eqn:Himg.
  2:{ exists PyFalse, w. split; [reflexivity|].
      split; [|easy]. now intros [(? & [=] & _) _]. }
  destruct (decodable img) eqn:Hdec.
  2:{ exists PyFalse, w. split; [reflexivity|]. split; [|easy].
      intros [(? & [= <-] & E) _]. congruence. }
  destruct (fs w !! sp) as [d|] eqn:Hd.
  2:{ exists PyFalse, w. split; [reflexivity|]. split; [|easy].
      intros (_ & [? [=]] & _). }
  cbn [mbind option_bind].
  destruct (dir_lookup outfile d) as [[img'|]|] eqn:Hout.
  2:{ exists PyFalse, w. split; [reflexivity|]. split; [|easy].
      now intros (_ & _ & E). }
  all: eexists _, _; split; [reflexivity|]; split; [|intros H; exfalso;
    apply H; split; [eauto|split; [eauto|discriminate]]];
    intros _; split; [reflexivity|]; split;
    [ rewrite (lookup_image_put _ _ _ _ _ _ _ _ Hd);
      now rewrite decide_True by tauto|];
    split; [reflexivity|];
    intros p' n' Hpn; rewrite (lookup_image_put _ _ _ _ _ _ _ _ Hd);
    now rewrite decide_False.
Qed.



(** X3: for a pipeline built by the constructor and a file name without
    a slash, the name under which [convert_format] saves is the name the
    pipeline looks for: when the conversion returns a record, the record
    carries [new_filename], and [get_filenames] of the output directory
    lists it from then on. *)
Theorem X3_converted_file_is_listed (paths : list string) (out fmt : string)
    (rt : pyval) (self : ProcessImages) (p f : string) (w w' : world)
    (c : ConversionData) (ev : list event) :
  __init__ paths out (PyStr fmt) rt = inr self ->
  has_char "/" f = false ->
  convert_format f (new_filename_of self p f) p (PROCESSED_IMAGE_PATH self)
                 (CONVERSION_FORMAT self) w
  = (Ok (Value c), w', ev) ->
  filename c = new_filename_of self p f /\
  exists l,
    get_filenames (PROCESSED_IMAGE_PATH self) w' = (Ok (Value l), w', []) /\
    In (new_filename_of self p f) l.
Proof.
  intros Hinit Hf H.
  destruct (constructed_format _ _ _ _ _ Hinit) as (_ & _ & Hfmt).
  pose proof (outfile_is_new_filename self p f Hfmt Hf) as Hname.
  destruct (convert_format_spec f (new_filename_of self p f) p
              (PROCESSED_IMAGE_PATH self) (CONVERSION_FORMAT self) w)
    as (c' & w1 & H' & _ & _ & O).
  rewrite H in H'. injection H' as <- <- _.
  destruct O as [[[=] _]|([= ->] & _ & Hput & _)].
  fold (outfile_of self p f) in Hput |- *. rewrite Hname in Hput |- *.
  split; [reflexivity|]. rewrite get_filenames_spec.
  destruct (fs w' !! PROCESSED_IMAGE_PATH self) as [d|] eqn:Hd.
  - eexists. split; [reflexivity|]. apply str_in_In, listing_spec.
    rewrite Hput. eauto.
  - unfold lookup_image, lookup_entry in Hput. now rewrite Hd in Hput.
Qed.

Lemma X3_a_tif_is_listed :
  let self := pipeline ["/photos"] false in
  let nf := new_filename_of self "/photos" "a.tif" in
  let w' := world_of (convert_format "a.tif" nf "/photos" "/processed" "jpg"
                                     (start files_one)) in
  exists l, get_filenames "/processed" w' = (Ok (Value l), w', []) /\ In nf l.
Proof.
  intros self nf w'.
  refine (proj2 (X3_converted_file_is_listed ["/photos"] "/processed" "jpg"
                   (PyBool false) self "/photos" "a.tif" (start files_one) w'
                   {| orig_path := "/photos"; processed_path := "/processed";
                      filename := nf |}
                   [Call_convert_format "a.tif" nf "/photos" "/processed"
                                        "jpg"] _ _ _)).
  - reflexivity.
  - reflexivity.
  - vm_compute. reflexivity.
Defined.

(** X4: a run works in the output directory only.  Every other directory
    is after the run what it was before, no directory is created or
    removed, and a file of the output directory is still a file of it. *)
Theorem X4_run_works_in_the_output_directory_only (self : ProcessImages)
    (files : gmap string directory) :
  let w' := world_of (run self files) in
  (forall p, p <> PROCESSED_IMAGE_PATH self -> fs w' !! p = files !! p) /\
  (forall p, is_Some (fs w' !! p) <-> is_Some (files !! p)) /\
  (forall n, is_Some (lookup_image (start files) (PROCESSED_IMAGE_PATH self) n)
             -> is_Some (lookup_image w' (PROCESSED_IMAGE_PATH self) n)).
Proof.
  exact (proj1 (respects_generate self (fun _ => True)
                  (fun _ _ => I) (fun _ _ => I) (fun _ _ _ => I) (fun _ => I)
                  (start files))).
Qed.

(** ** What holds from the start of a run to its end *)

Section Follows.
Context (Q : world -> list event -> world -> Prop).
Hypothesis Q_nil : forall w, Q w [] w.
Hypothesis Q_app : forall w ev1 w1 ev2 w2,
  Q w ev1 w1 -> Q w1 ev2 w2 -> Q w (ev1 ++ ev2) w2.

Lemma follows_ret {A} (a : A) : follows Q (ret a).
Proof. intros w. apply Q_nil. Qed.

Lemma follows_get_world : follows Q get_world.
Proof. intros w. apply Q_nil. Qed.

Lemma follows_os_listdir (path : string) : follows Q (os_listdir path).
Proof.
  intros w. unfold os_listdir, world_of, events_of.
  destruct (fs w !! path); apply Q_nil.
Qed.

Lemma follows_bind {A B} (m : M A) (k : A -> M B) :
  follows Q m -> (forall a, follows Q (k a)) -> follows Q (bind m k).
Proof.
  intros Hm Hk w. specialize (Hm w). unfold bind, world_of, events_of in *.
  destruct (m w) as [[[a|e] w1] ev1]; cbn in *; [|exact Hm].
  specialize (Hk a w1). unfold world_of, events_of in Hk.
  destruct (k a w1) as [[r w2] ev2]. cbn in *. eapply Q_app; eassumption.
Qed.

Lemma follows_for {A} (l : list A) (body : A -> M unit) :
  (forall x, follows Q (body x)) -> follows Q (for_ l body).
Proof.
  intros Hb. induction l as [|x l IH]; cbn [for_].
  - apply follows_ret.
  - apply follows_bind; [apply Hb|intros _; exact IH].
Qed.

Lemma follows_paths_loop (self : ProcessImages) existing (l : list string) :
  (forall p f, follows Q (loop_file self existing p f)) ->
  follows Q (for_ l (loop_image_path self existing)).
Proof.
  intros Hfile. apply follows_for. intros p. unfold loop_image_path.
  apply follows_bind; [apply follows_os_listdir|intros names].
  apply follows_for. intros f. unfold loop_filename.
  apply follows_bind; [apply follows_get_world|intros w'].
  destruct (negb _); [apply Hfile|apply follows_ret].
Qed.

(** what the body of the loops keeps from file to file holds for the run *)
Lemma follows_run (self : ProcessImages) (files : gmap string directory) :
  (forall existing p f, follows Q (loop_file self existing p f)) ->
  Q (start files) (events_of (run self files)) (world_of (run self files)).
Proof.
  intros Hfile.
  pose proof (follows_paths_loop self
                (match files !! PROCESSED_IMAGE_PATH self with
                 | Some _ => Value (listing (start files)
                                            (PROCESSED_IMAGE_PATH self))
                 | None => PyFalse
                 end)
                (ORIGINAL_IMAGE_PATHS self) (Hfile _) (start files)) as F.
  destruct (for_ _ _ (start files)) as [[r w'] ev] eqn:E.
  unfold run. change {| fs := files; processed_data := initial_processed_data |}
    with (start files).
  rewrite (generate_eq self (start files) r w' ev E). exact F.
Qed.
End Follows.

Lemma stamped_ends_with_marker (t : TagData) :
  has_tags t = true -> ends_with_marker (stamped t).
Proof.
  unfold has_tags, stamped, ends_with_marker.
  destruct (tags t) as [|x l] eqn:E; [discriminate|]. intros _.
  exists (x :: l). split; [discriminate|reflexivity].
Qed.

(** X5: every call a run makes is aimed at the output directory.  Each
    conversion is asked for under the converted name of its source file,
    into the output directory and in the format of the pipeline; each tag
    write goes to a converted name in the output directory and carries at
    least one tag followed by the marker as its last tag. *)
Theorem X5_calls_are_aimed_at_the_output (self : ProcessImages)
    (files : gmap string directory) :
  Forall (aimed_at_output self) (events_of (run self files)).
Proof.
  apply (follows_run (fun _ ev _ => Forall (aimed_at_output self) ev)).
  - constructor.
  - intros. now apply Forall_app.
  - intros [ex|] p f w; [|rewrite loop_file_no_listing; constructor].
    destruct (loop_file_spec self ex p f w) as (c & w1 & w2 & H & _).
    rewrite H. unfold events_of. cbn [snd].
    apply Forall_app. split.
    { destruct (str_in _ ex); repeat constructor. }
    apply Forall_app. split; [|repeat constructor].
    destruct (retag self || negb _); [|constructor].
    unfold tag_calls. constructor; [exact I|].
    induction (records (read_result w1 p f)) as [|t l IH]; [constructor|].
    cbn [List.filter]. destruct (has_tags t) eqn:Ht; [|exact IH].
    cbn [map]. constructor; [|exact IH]. cbn.
    split; [reflexivity|]. split; [eauto|].
    now apply stamped_ends_with_marker.
Qed.

Lemma last_app_default {A} (l1 l2 : list A) (d : A) :
  List.last (l1 ++ l2) d = List.last l2 (List.last l1 d).
Proof.
  revert d. induction l1 as [|x l1 IH]; intros d; [reflexivity|].
  change ((x :: l1) ++ l2) with (x :: (l1 ++ l2)).
  now rewrite !last_cons, IH.
Qed.

(** X6: when the generator is exhausted, the dict it has handed out at
    every yield holds what it yielded last; nothing changes it after the
    last yield.  So every element of [list(generator)] shows the last
    result. *)
Theorem X6_the_dict_holds_the_last_result (self : ProcessImages)
    (files : gmap string directory) :
  let r := run self files in
  processed_data (world_of r)
  = List.last (yielded (events_of r)) initial_processed_data /\
  forall d, In d (collected r) ->
            d = List.last (yielded (events_of r)) initial_processed_data.
Proof.
  intros r.
  assert (H : holds_last_yield (start files) (events_of r) (world_of r)).
  { apply (follows_run holds_last_yield).
    - reflexivity.
    - unfold holds_last_yield. intros w ev1 w1 ev2 w2 H1 H2.
      now rewrite yielded_app, last_app_default, <- H1.
    - intros [ex|] p f w; [|now rewrite loop_file_no_listing].
      destruct (loop_file_spec self ex p f w) as (c & w1 & w2 & H & _).
      rewrite H. unfold holds_last_yield, events_of, world_of. cbn [fst snd].
      now rewrite yielded_loop_file. }
  split; [exact H|]. intros d Hd. unfold collected in Hd.
  apply in_map_iff in Hd as (x & <- & _). exact H.
Qed.

(** ** Writing tags and reading them back *)

Lemma iptc_put_in (k : string) (v : list string)
    (l : list (string * list string)) :
  In (k, v) (iptc_put k v l).
Proof.
  induction l as [|[k' v'] l IH]; cbn [iptc_put]; [now left|].
  destruct (String.eqb_spec k' k) as [->|_]; [now left|now right].
Qed.

Lemma iptc_put_twice (k : string) (v v0 : list string)
    (l : list (string * list string)) :
  iptc_put k v (iptc_put k v0 l) = iptc_put k v l.
Proof.
  induction l as [|[k' v'] l IH]; cbn [iptc_put].
  - now rewrite String.eqb_refl.
  - destruct (String.eqb k' k) eqn:E; cbn [iptc_put]; rewrite E;
      [reflexivity|now rewrite IH].
Qed.

Lemma filter_twice {A} (g : A -> bool) (l : list A) :
  List.filter g (List.filter g l) = List.filter g l.
Proof.
  induction l as [|x l IH]; [reflexivity|]. cbn [List.filter].
  destruct (g x) eqn:E; [|exact IH]. cbn [List.filter]. now rewrite E, IH.
Qed.

(** setting a key to the same values twice is setting it once *)
Lemma iptc_set_twice (k : string) (v : list string)
    (l : list (string * list string)) :
  iptc_set k v (iptc_set k v l) = iptc_set k v l.
Proof.
  destruct v as [|x v]; [apply filter_twice|apply iptc_put_twice].
Qed.

Lemma dir_put_twice (n : string) (e e0 : entry) (d : directory) :
  dir_put n e (dir_put n e0 d) = dir_put n e d.
Proof.
  induction d as [|[m e'] d IH]; cbn [dir_put].
  - now rewrite String.eqb_refl.
  - destruct (String.eqb m n) eqn:E; cbn [dir_put]; rewrite E;
      [reflexivity|now rewrite IH].
Qed.

(** X9: after [write_iptc_tags] has returned [True] for a record,
    [read_iptc_tags] of the same file returns a list of records: when the
    record written has tags, the list contains it; when it has none, the
    keywords are gone and no record of the list has the keywords key.
    Writing the record once more returns [True] again and leaves the file
    system as it is. *)
Theorem X9_written_tags_are_read_back (path filename : string) (t : TagData)
    (w w' : world) (ev : list event) :
  write_iptc_tags path filename t w = (Ok true, w', ev) ->
  (exists l,
     read_iptc_tags filename path w'
     = (Ok (Value l), w', [Call_read_iptc_tags filename path]) /\
     (tags t <> [] -> In t l) /\
     (tags t = [] -> forall r, In r l -> iptc_key r <> Keywords)) /\
  write_iptc_tags path filename t w' = (Ok true, w', ev).
Proof.
  unfold write_iptc_tags, bind, emit, try_except, ret.
  destruct (String.eqb_spec (iptc_key t) Keywords) as [Hk|Hk]; [|discriminate].
  unfold pyexiv2_write.
  destruct (fs w !! path) as [d|] eqn:Hd; [|discriminate].
  destruct (dir_lookup filename d) as [[img|]|] eqn:Hf; try discriminate.
  destruct (iptc img) as [l|] eqn:Hl; [|discriminate].
  destruct (meta_writable img) eqn:Hw; [|discriminate].
  intros [= <- <-]. cbn [fs processed_data]. split.
  - rewrite read_iptc_tags_spec. unfold read_result.
    rewrite (lookup_image_put _ _ _ _ _ _ _ _ Hd).
    rewrite decide_True by tauto. cbn [iptc].
    destruct (tags t) as [|x ts] eqn:Et.
    + cbn [iptc_set].
      set (rest := List.filter
                     (fun kv => negb (String.eqb (fst kv) (iptc_key t))) l).
      assert (Hrest : forall kv, In kv rest -> fst kv <> Keywords).
      { intros kv Hin. apply List.filter_In in Hin as [_ Hne].
        rewrite Hk in Hne. apply negb_true_iff in Hne.
        now apply String.eqb_neq in Hne. }
      destruct rest as [|kv rest'] eqn:Er.
      * eexists. split; [reflexivity|]. split; [easy|].
        intros _ r [<-|[]]. discriminate.
      * eexists. split; [reflexivity|]. split; [easy|].
        intros _ r Hr. apply in_map_iff in Hr as (kv' & <- & Hin).
        now apply Hrest.
    + cbn [iptc_set].
      pose proof (iptc_put_in (iptc_key t) (x :: ts) l) as Hin.
      destruct (iptc_put (iptc_key t) (x :: ts) l) as [|kv l'] eqn:E;
        [destruct Hin|].
      eexists. split; [reflexivity|]. split; [|discriminate]. intros _.
      apply in_map_iff. exists (iptc_key t, x :: ts).
      split; [destruct t; cbn in *; now subst|exact Hin].
  - rewrite lookup_insert_eq, dir_lookup_put, String.eqb_refl.
    cbn [iptc meta_writable decodable].
    now rewrite iptc_set_twice, dir_put_twice, insert_insert_eq.
Qed.

Lemma X9_moon_tags_are_read_back :
  exists w' l,
    write_iptc_tags "/photos" "a.tif"
      {| iptc_key := Keywords; tags := ["PLACE: Mars"] |} (start files_one)
    = (Ok true, w',
       [Call_write_iptc_tags "/photos" "a.tif"
          {| iptc_key := Keywords; tags := ["PLACE: Mars"] |}]) /\
    read_iptc_tags "a.tif" "/photos" w'
    = (Ok (Value l), w', [Call_read_iptc_tags "a.tif" "/photos"]) /\
    In {| iptc_key := Keywords; tags := ["PLACE: Mars"] |} l.
Proof.
  destruct (write_iptc_tags_success "/photos" "a.tif"
              {| iptc_key := Keywords; tags := ["PLACE: Mars"] |}
              (start files_one) moon_image [(Keywords, moon_tags)]
              eq_refl eq_refl eq_refl eq_refl) as [w' H].
  destruct (X9_written_tags_are_read_back _ _ _ _ _ _ H)
    as [(l & Hr & Hin & _) _].
  exists w', l. split; [exact H|]. split; [exact Hr|].
  apply Hin. discriminate.
Defined.

(** ** The steps of the body for one file *)

Lemma lookup_image_fs (w w' : world) (p n : string) :
  fs w' = fs w -> lookup_image w' p n = lookup_image w p n.
Proof. intros E. unfold lookup_image, lookup_entry. now rewrite E. Qed.

Lemma taggable_fs (w w' : world) (p n : string) :
  fs w' = fs w -> taggable w p n -> taggable w' p n.
Proof.
  intros E (img & l & H). exists img, l.
  now rewrite (lookup_image_fs w w' p n E).
Qed.

Lemma keywords_of_fs (w w' : world) (p n : string) :
  fs w' = fs w -> keywords_of w' p n = keywords_of w p n.
Proof. intros E. unfold keywords_of. now rewrite (lookup_image_fs w w' p n E). Qed.

(** the world after the body is the world after its two steps *)
Lemma loop_file_world (self : ProcessImages) (ex : list string)
    (p f : string) (w : world) :
  let nf := new_filename_of self p f in
  let b := str_in nf ex in
  world_of (loop_file self (Value ex) p f w)
  = world_of (tag_or_skip self p f nf b
                (world_of (convert_or_skip self p f nf b w))).
Proof.
  intros nf b.
  destruct (convert_or_skip_spec self p f b w) as (c & w1 & H1 & _).
  destruct (tag_or_skip_spec self p f b w1) as (w2 & H2 & _).
  fold nf in H1, H2.
  assert (H : loop_file self (Value ex) p f w
              = (Ok tt, w2,
                 (if b then [] else [convert_call self p f])
                 ++ (if retag self || negb b
                     then tag_calls self w1 p f else [])
                 ++ [Yield (processed_data w2)])).
  { unfold loop_file. eapply bind_ok; [reflexivity| |reflexivity].
    fold nf b. eapply bind_ok; [exact H1| |reflexivity].
    eapply bind_ok; [exact H2|reflexivity|reflexivity]. }
  unfold world_of. rewrite H, H1. cbn [fst snd]. now rewrite H2.
Qed.



(** the conversion step on a file that can be converted *)
Lemma convert_or_skip_convertible (self : ProcessImages) (p f : string)
    (w : world) :
  convertible w p f (PROCESSED_IMAGE_PATH self) (outfile_of self p f) ->
  let w1 := world_of (convert_or_skip self p f (new_filename_of self p f)
                                      false w) in
  lookup_image w1 (PROCESSED_IMAGE_PATH self) (outfile_of self p f)
  = Some converted_image /\
  forall p' n',
    ~ (p' = PROCESSED_IMAGE_PATH self /\ n' = outfile_of self p f) ->
    lookup_image w1 p' n' = lookup_image w p' n'.
Proof.
  intros Hc w1.
  destruct (convert_format_cases f (new_filename_of self p f) p
              (PROCESSED_IMAGE_PATH self) (CONVERSION_FORMAT self) w)
    as (c & w' & H & Hyes & _).
  destruct (Hyes Hc) as (_ & Hput & _ & Hfr).
  assert (E : fs w1 = fs w').
  { unfold w1, convert_or_skip. cbn [negb]. unfold bind. now rewrite H. }
  split.
  - rewrite (lookup_image_fs w' w1 _ _ E). exact Hput.
  - intros p' n' Hpn. rewrite (lookup_image_fs w' w1 _ _ E). now apply Hfr.
Qed.

(** the tagging step writes nothing when no record has tags *)
Lemma tag_or_skip_without_tags (self : ProcessImages) (p f : string)
    (b : bool) (w : world) :
  List.filter has_tags (records (read_result w p f)) = [] ->
  fs (world_of (tag_or_skip self p f (new_filename_of self p f) b w)) = fs w.
Proof.
  intros H. unfold tag_or_skip. destruct (retag self || negb b); [|reflexivity].
  unfold bind. rewrite read_iptc_tags_spec.
  destruct (read_result w p f) as [[|t l]|] eqn:E; try reflexivity.
  destruct (for_loop_tag_spec self (new_filename_of self p f) (t :: l) w)
    as (w' & Hfor & _ & _ & Hfs & _).
  rewrite Hfor. cbn [world_of fst snd]. now apply Hfs.
Qed.

Lemma filter_convert_tag_calls (self : ProcessImages) (w : world)
    (p f : string) :
  List.filter is_convert (tag_calls self w p f) = [].
Proof.
  unfold tag_calls. cbn [List.filter is_convert].
  induction (List.filter has_tags _) as [|t l IH]; [reflexivity|exact IH].
Qed.

(** X8: whether a file is converted is decided by the listing of the
    output directory taken at the start of the run, not by what the
    directory holds when the file's turn comes.  A file whose converted
    name is not in that listing is converted, and the new image replaces
    whatever is stored under the name by then: for a source without IPTC
    entries the output file ends up as the bare converted image. *)
Theorem X8_the_listing_taken_at_the_start_decides (self : ProcessImages)
    (ex : list string) (p f : string) (w : world) :
  let nf := new_filename_of self p f in
  let r := loop_file self (Value ex) p f w in
  List.filter is_convert (events_of r)
  = (if str_in nf ex then [] else [convert_call self p f]) /\
  (str_in nf ex = false ->
   convertible w p f (PROCESSED_IMAGE_PATH self) (outfile_of self p f) ->
   (forall img, lookup_image w p f = Some img -> iptc img = Some []) ->
   lookup_image (world_of r) (PROCESSED_IMAGE_PATH self) (outfile_of self p f)
   = Some converted_image).
Proof.
  intros nf r. split.
  - destruct (loop_file_spec self ex p f w) as (c & w1 & w2 & H & _).
    unfold r. rewrite H. unfold events_of. cbn [snd]. fold nf.
    rewrite !List.filter_app.
    replace (List.filter is_convert
               (if retag self || negb (str_in nf ex)
                then tag_calls self w1 p f else []))
      with (@nil event)
      by (destruct (retag self || negb _);
          [now rewrite filter_convert_tag_calls|reflexivity]).
    now destruct (str_in nf ex).
  - intros Hnew Hc Hplain. unfold r. rewrite loop_file_world. fold nf.
    rewrite Hnew.
    destruct (convert_or_skip_convertible self p f w Hc) as [Hput Hfr].
    fold nf in Hput, Hfr.
    set (w1 := world_of (convert_or_skip self p f nf false w)) in *.
    assert (Hr : read_result w1 p f
                 = Value [ {| iptc_key := ""; tags := [] |} ]).
    { unfold read_result.
      destruct (decide (p = PROCESSED_IMAGE_PATH self
                        /\ f = outfile_of self p f)) as [[Hp Hf]|Hne].
      - rewrite <- Hp, <- Hf in Hput. now rewrite Hput.
      - rewrite (Hfr p f Hne). destruct Hc as [(img & Himg & _) _].
        now rewrite Himg, (Hplain img Himg). }
    rewrite (lookup_image_fs w1); [exact Hput|].
    apply tag_or_skip_without_tags. now rewrite Hr.
Qed.

(** ** Re-tagging *)

Lemma write_iptc_tags_taggable (path filename : string) (t : TagData)
    (w : world) :
  iptc_key t = Keywords -> taggable w path filename ->
  exists w',
    write_iptc_tags path filename t w
    = (Ok true, w', [Call_write_iptc_tags path filename t]) /\
    taggable w' path filename /\
    keywords_of w' path filename
    = match tags t with [] => None | _ :: _ => Some (tags t) end.
Proof.
  intros Hk (img & l & Himg & Hl & Hw).
  unfold write_iptc_tags, bind, emit, try_except, ret, pyexiv2_write.
  rewrite Hk, String.eqb_refl.
  unfold lookup_image, lookup_entry in Himg.
  destruct (fs w !! path) as [d|] eqn:Hd; [|discriminate]. cbn in Himg.
  destruct (dir_lookup filename d) as [[img'|]|]; try discriminate.
  injection Himg as ->. rewrite Hl, Hw. eexists. split; [reflexivity|].
  split.
  - eexists _, _. rewrite (lookup_image_put _ _ _ _ _ _ _ _ Hd).
    rewrite decide_True by tauto. split; [reflexivity|]. now split.
  - unfold keywords_of. rewrite (lookup_image_put _ _ _ _ _ _ _ _ Hd).
    rewrite decide_True by tauto. cbn. apply iptc_get_set.
Qed.

(** the tag loop, step by step: a keywords record with tags replaces the
    keywords of the converted file, any other record leaves them *)
Lemma loop_tag_keywords (self : ProcessImages) (nf : string) (t : TagData)
    (w : world) :
  taggable w (PROCESSED_IMAGE_PATH self) nf ->
  exists w' ev,
    loop_tag self nf t w = (Ok tt, w', ev) /\
    taggable w' (PROCESSED_IMAGE_PATH self) nf /\
    keywords_of w' (PROCESSED_IMAGE_PATH self) nf
    = (if is_keywords t then Some (tags t ++ [copied_marker])
       else keywords_of w (PROCESSED_IMAGE_PATH self) nf).
Proof.
  intros Ht. unfold loop_tag, is_keywords, has_tags.
  destruct (tags t) as [|x l] eqn:Et.
  - rewrite andb_false_r. eexists _, _. split; [reflexivity|]. split.
    + eapply taggable_fs; [|exact Ht]. reflexivity.
    + now apply keywords_of_fs.
  - rewrite andb_true_r.
    set (t' := {| iptc_key := iptc_key t;
                  tags := (x :: l) ++ [copied_marker] |}).
    set (w0 := {| fs := fs w;
                  processed_data :=
                    {| conversion_data := conversion_data (processed_data w);
                       tag_data := t' |} |}).
    assert (Ht0 : taggable w0 (PROCESSED_IMAGE_PATH self) nf)
      by (eapply taggable_fs; [|exact Ht]; reflexivity).
    destruct (String.eqb_spec (iptc_key t) Keywords) as [Hk|Hk].
    + destruct (write_iptc_tags_taggable (PROCESSED_IMAGE_PATH self) nf t' w0
                  Hk Ht0) as (w' & H & T & K).
      exists w'. eexists. split; [|split; [exact T|exact K]].
      eapply bind_ok; [apply set_tag_data_spec| |reflexivity].
      eapply bind_ok; [exact H|reflexivity|reflexivity].
    + destruct (write_iptc_tags_spec (PROCESSED_IMAGE_PATH self) nf t' w0)
        as (b & w' & H & _ & _ & Hsame & Hno & _).
      specialize (Hno Hk). subst b. rewrite (Hsame eq_refl) in H.
      exists w0. eexists. split; [|split; [exact Ht0|now apply keywords_of_fs]].
      eapply bind_ok; [apply set_tag_data_spec| |reflexivity].
      eapply bind_ok; [exact H|reflexivity|reflexivity].
Qed.

Lemma for_loop_tag_keywords (self : ProcessImages) (nf : string)
    (l : list TagData) (w : world) :
  taggable w (PROCESSED_IMAGE_PATH self) nf ->
  exists w' ev,
    for_ l (loop_tag self nf) w = (Ok tt, w', ev) /\
    taggable w' (PROCESSED_IMAGE_PATH self) nf /\
    keywords_of w' (PROCESSED_IMAGE_PATH self) nf
    = fold_left (fun acc t => if is_keywords t
                              then Some (tags t ++ [copied_marker]) else acc)
                l (keywords_of w (PROCESSED_IMAGE_PATH self) nf).
Proof.
  revert w. induction l as [|t l IH]; intros w Ht.
  - exists w, []. now split.
  - destruct (loop_tag_keywords self nf t w Ht) as (w1 & ev1 & H1 & T1 & K1).
    destruct (IH w1 T1) as (w2 & ev2 & H2 & T2 & K2).
    exists w2, (ev1 ++ ev2). split; [|split; [exact T2|]].
    + cbn [for_]. eapply bind_ok; [exact H1|exact H2|reflexivity].
    + rewrite K2, K1. reflexivity.
Qed.

Lemma fold_without_keywords (es : list (string * list string))
    (d : option (list string)) :
  ~ In Keywords (map fst es) ->
  fold_left (fun acc t => if is_keywords t
                          then Some (tags t ++ [copied_marker]) else acc)
            (map record_of es) d = d.
Proof.
  revert d. induction es as [|[k v] es IH]; intros d Hk; [reflexivity|].
  cbn [map fold_left]. unfold is_keywords at 2. cbn [record_of iptc_key fst].
  destruct (String.eqb_spec k Keywords) as [->|_].
  - exfalso. apply Hk. now left.
  - cbn [andb]. apply IH. intros H. apply Hk. now right.
Qed.

Lemma fold_keywords_unique (es : list (string * list string))
    (T : list string) (d : option (list string)) :
  List.NoDup (map fst es) -> In (Keywords, T) es -> T <> [] ->
  fold_left (fun acc t => if is_keywords t
                          then Some (tags t ++ [copied_marker]) else acc)
            (map record_of es) d
  = Some (T ++ [copied_marker]).
Proof.
  revert d. induction es as [|[k v] es IH]; intros d Hnd Hin HT;
    [destruct Hin|].
  cbn [map fst] in Hnd. inversion Hnd as [|? ? Hk Hnd']; subst.
  destruct Hin as [[= -> ->]|Hin].
  - cbn [map fold_left]. unfold is_keywords at 2, has_tags.
    cbn [record_of iptc_key tags fst snd]. rewrite String.eqb_refl.
    destruct T as [|x T]; [easy|]. cbn [andb].
    now apply fold_without_keywords.
  - cbn [map fold_left]. now apply IH.
Qed.

Lemma tag_or_skip_keywords (self : ProcessImages) (p f : string) (b : bool)
    (w : world) (img : image) (entries : list (string * list string))
    (T : list string) :
  retag self || negb b = true ->
  lookup_image w p f = Some img -> iptc img = Some entries ->
  List.NoDup (map fst entries) -> In (Keywords, T) entries -> T <> [] ->
  taggable w (PROCESSED_IMAGE_PATH self) (new_filename_of self p f) ->
  keywords_of (world_of (tag_or_skip self p f (new_filename_of self p f) b w))
              (PROCESSED_IMAGE_PATH self) (new_filename_of self p f)
  = Some (T ++ [copied_marker]).
Proof.
  intros Hb Himg Hi Hnd Hin HT Htag. unfold tag_or_skip. rewrite Hb.
  unfold bind. rewrite read_iptc_tags_spec.
  assert (Hr : read_result w p f = Value (map record_of entries)).
  { unfold read_result. rewrite Himg, Hi.
    destruct entries; [destruct Hin|reflexivity]. }
  rewrite Hr.
  destruct (for_loop_tag_keywords self (new_filename_of self p f)
              (map record_of entries) w Htag) as (w' & ev & H & _ & K).
  destruct entries as [|kv es]; [destruct Hin|]. cbn [map] in H |- *.
  rewrite H. cbn [world_of fst snd]. rewrite K.
  now apply (fold_keywords_unique (kv :: es)).
Qed.

(** X7: under [retag], a file that is converted already gets the keywords
    of its source followed by one marker, whatever keywords the converted
    file held before.  The tags are read from the source each time, so
    running the pipeline again does not pile up markers. *)
Theorem X7_retag_sets_the_keywords_of_the_source (self : ProcessImages)
    (ex : list string) (p f : string) (w : world) (img : image)
    (entries : list (string * list string)) (T : list string) :
  retag self = true ->
  str_in (new_filename_of self p f) ex = true ->
  lookup_image w p f = Some img -> iptc img = Some entries ->
  List.NoDup (map fst entries) -> In (Keywords, T) entries -> T <> [] ->
  taggable w (PROCESSED_IMAGE_PATH self) (new_filename_of self p f) ->
  keywords_of (world_of (loop_file self (Value ex) p f w))
              (PROCESSED_IMAGE_PATH self) (new_filename_of self p f)
  = Some (T ++ [copied_marker]).
Proof.
  intros Hretag Hex Himg Hi Hnd Hin HT Htag.
  rewrite loop_file_world, Hex.
  apply (tag_or_skip_keywords self p f true _ img entries T); auto.
  now rewrite Hretag.
Qed.

Lemma X7_retag_twice_gives_one_marker :
  let self := pipeline ["/photos"] true in
  let nf := new_filename_of self "/photos" "a.tif" in
  let once := world_of (loop_file self (Value [nf]) "/photos" "a.tif"
                                  (start files_moon_done)) in
  keywords_of once "/processed" nf
  = Some ["DATE: 1974"; "PLACE: The Moon"; "SPM: TAGS COPIED FROM ORIGINAL"] /\
  keywords_of (world_of (loop_file self (Value [nf]) "/photos" "a.tif" once))
              "/processed" nf
  = Some ["DATE: 1974"; "PLACE: The Moon"; "SPM: TAGS COPIED FROM ORIGINAL"].
Proof.
  intros self nf once.
  assert (Hnd : List.NoDup (map fst [(Keywords, moon_tags)]))
    by (repeat constructor; intros []).
  split.
  - apply (X7_retag_sets_the_keywords_of_the_source self [nf] "/photos"
             "a.tif" (start files_moon_done) moon_image
             [(Keywords, moon_tags)] moon_tags); try reflexivity.
    + exact Hnd.
    + now left.
    + discriminate.
    + exists converted_image, []. vm_compute. auto.
  - apply (X7_retag_sets_the_keywords_of_the_source self [nf] "/photos"
             "a.tif" once moon_image
             [(Keywords, moon_tags)] moon_tags); try reflexivity.
    + exact Hnd.
    + now left.
    + discriminate.
    + eexists _, _. vm_compute. auto.
Defined.

(** ** What every result looks like *)

Lemma stamped_tags_ok (t : TagData) : tags_ok (stamped t).
Proof.
  destruct (has_tags t) eqn:E.
  - right. now apply stamped_ends_with_marker.
  - left. unfold has_tags in E. unfold stamped.
    destruct (tags t) eqn:Et; [exact Et|discriminate].
Qed.

Lemma last_stamped_ok (l : list TagData) (d : TagData) :
  tags_ok d -> tags_ok (List.last (map stamped l) d).
Proof.
  revert d. induction l as [|t l IH]; intros d Hd; [exact Hd|].
  cbn [map]. rewrite last_cons. apply IH, stamped_tags_ok.
Qed.

(** X18: every result a run yields carries tags that are either empty or
    end with the marker, and a conversion record that is either [False]
    or names a source path, the output directory and the converted name
    of a file. *)
Theorem X18_results_are_well_formed (self : ProcessImages)
    (files : gmap string directory) :
  Forall (result_ok self) (yielded (events_of (run self files))).
Proof.
  refine (proj2 (follows_run
                   (fun w ev w' =>
                      tags_ok (tag_data (processed_data w)) ->
                      tags_ok (tag_data (processed_data w')) /\
                      Forall (result_ok self) (yielded ev))
                   _ _ self files _ _)).
  - intros w H. split; [exact H|constructor].
  - intros w ev1 w1 ev2 w2 H1 H2 H. destruct (H1 H) as [T1 F1].
    destruct (H2 T1) as [T2 F2]. split; [exact T2|].
    rewrite yielded_app. now apply Forall_app.
  - intros [ex|] p f w Hw;
      [|rewrite loop_file_no_listing; split; [exact Hw|constructor]].
    destruct (loop_file_spec self ex p f w)
      as (c & w1 & w2 & H & _ & _ & O & C & T & _).
    rewrite H. unfold events_of, world_of. cbn [fst snd].
    rewrite yielded_loop_file.
    assert (HT : tags_ok (tag_data (processed_data w2))).
    { rewrite T. destruct (retag self || negb _); [|exact Hw].
      now apply last_stamped_ok. }
    split; [exact HT|]. constructor; [|constructor]. split; [exact HT|].
    rewrite C. unfold conversion_outcome in O.
    destruct (str_in _ ex).
    + destruct O as [-> _]. right. exists p, f, (new_filename_of self p f).
      split; [reflexivity|now left].
    + destruct O as [[-> _]|(-> & _)]; [now left|].
      right. exists p, f, (outfile_of self p f). split; [reflexivity|now right].
  - now left.
Qed.

(** X19: the constructor raises AttributeError exactly when the
    conversion format is not a string, so also for the default [None].
    A pipeline built again from the attributes of a constructed one is
    the same pipeline: the format and [retag] are already normalised. *)
Theorem X19_constructor_normalises_once (image_paths : list string)
    (processed_image_path : string) (conversion_format retag0 : pyval) :
  (__init__ image_paths processed_image_path conversion_format retag0
   = inl AttributeError
   <-> forall s, conversion_format <> PyStr s) /\
  __init__ image_paths processed_image_path PyNone retag0
  = inl AttributeError /\
  forall self,
    __init__ image_paths processed_image_path conversion_format retag0
    = inr self ->
    __init__ (ORIGINAL_IMAGE_PATHS self) (PROCESSED_IMAGE_PATH self)
             (PyStr (CONVERSION_FORMAT self)) (PyBool (retag self))
    = inr self.
Proof.
  split; [|split; [reflexivity|]].
  - destruct conversion_format as [|b|n|s]; cbn;
      try (split; [discriminate|reflexivity]).
    split; [discriminate|]. intros H. now destruct (H s).
  - intros self. destruct conversion_format as [|b|n|s]; try discriminate.
    unfold __init__. destruct (str_in (lower s) _) eqn:E.
    + intros [= <-]. cbn [ORIGINAL_IMAGE_PATHS PROCESSED_IMAGE_PATH
                          CONVERSION_FORMAT retag].
      now rewrite E.
    + intros [= <-]. reflexivity.
Qed.

(** ** The order of the results *)

Section Order.
Variable self : ProcessImages.
Variable ex : list string.
Local Abbreviation out := (PROCESSED_IMAGE_PATH self).

Lemma inner_loop_order (p : string) (l : list string) (w : world) :
  p <> out ->
  exists w' ev,
    for_ l (loop_filename self (Value ex) p) w = (Ok tt, w', ev) /\
    extends out w w' /\
    Forall2 (result_of self)
            (map (pair p)
                 (List.filter (fun n => negb (os_path_isdir w p n)) l))
            (yielded ev).
Proof.
  intros Hp. revert w. induction l as [|f l IH]; intros w.
  { exists w, []. repeat split; auto using extends_refl. }
  cbn [for_ List.filter].
  destruct (os_path_isdir w p f) eqn:Hdir; cbn [negb].
  - destruct (IH w) as (w' & ev & H & E & L).
    exists w', ev. split; [|split; [exact E|exact L]].
    eapply bind_ok; [now apply loop_filename_dir|exact H|reflexivity].
  - destruct (loop_file_spec self ex p f w)
      as (c & w1 & w2 & H1 & E1 & E2 & O & C & _).
    assert (E12 : extends out w w2) by (eapply extends_trans; eassumption).
    destruct (IH w2) as (w' & ev & H & E & L).
    eexists w', _. split.
    { eapply bind_ok; [|exact H|reflexivity].
      rewrite loop_filename_file by assumption. exact H1. }
    split; [eapply extends_trans; eassumption|].
    rewrite yielded_app, yielded_loop_file. cbn [app map].
    constructor.
    + unfold result_of. cbn [fst snd]. rewrite C.
      unfold conversion_outcome in O.
      destruct (str_in (new_filename_of self p f) ex).
      * destruct O as [-> _]. right. eexists. split; [reflexivity|now left].
      * destruct O as [[-> _]|(-> & _)]; [now left|].
        right. eexists. split; [reflexivity|now right].
    + replace (List.filter (fun n => negb (os_path_isdir w p n)) l)
        with (List.filter (fun n => negb (os_path_isdir w2 p n)) l);
        [exact L|].
      apply filter_ext. intros n. now rewrite (isdir_extends out p n w w2).
Qed.

Lemma outer_loop_order (l : list string) (w : world) :
  (forall p, In p l -> p <> out /\ is_Some (fs w !! p)) ->
  exists w' ev,
    for_ l (loop_image_path self (Value ex)) w = (Ok tt, w', ev) /\
    extends out w w' /\
    Forall2 (result_of self) (files_in_order (fs w) l) (yielded ev).
Proof.
  revert w. induction l as [|p l IH]; intros w Hl.
  { exists w, []. repeat split; auto using extends_refl. }
  destruct (Hl p (or_introl eq_refl)) as [Hp [d Hd]].
  destruct (inner_loop_order p (map fst d) w Hp) as (w1 & ev1 & H1 & E1 & L1).
  assert (Hl1 : forall p', In p' l -> p' <> out /\ is_Some (fs w1 !! p')).
  { intros p' Hin. destruct (Hl p' (or_intror Hin)) as [Hp' Hs].
    split; [exact Hp'|]. now apply (proj1 (proj2 E1)). }
  destruct (IH w1 Hl1) as (w' & ev & H & E & L).
  eexists w', _. split.
  { cbn [for_]. eapply bind_ok; [|exact H|reflexivity].
    unfold loop_image_path. eapply bind_ok; [|exact H1|reflexivity].
    unfold os_listdir. now rewrite Hd. }
  split; [eapply extends_trans; eassumption|].
  unfold files_in_order. cbn [app flat_map]. rewrite yielded_app.
  apply Forall2_app.
  - now rewrite (source_files_listing w p d Hd).
  - replace (flat_map (fun p0 => map (pair p0) (source_files (fs w) p0)) l)
      with (files_in_order (fs w1) l); [exact L|].
    unfold files_in_order. apply flat_map_ext_In. intros p' Hin.
    rewrite (source_files_extends self w w1); auto. now apply Hl1.
Qed.
End Order.

(** X20: when the output directory and every source directory can be
    listed (no source directory being the output directory), the results
    come in the order of the source paths and, within a directory, of its
    listing, one for each plain file: the i-th result has the conversion
    record of the i-th file, or [False] if its conversion failed. *)
Theorem X20_results_follow_the_files (self : ProcessImages)
    (files : gmap string directory) :
  is_Some (files !! PROCESSED_IMAGE_PATH self) ->
  (forall p, In p (ORIGINAL_IMAGE_PATHS self) ->
             p <> PROCESSED_IMAGE_PATH self /\ is_Some (files !! p)) ->
  Forall2 (result_of self)
          (files_in_order files (ORIGINAL_IMAGE_PATHS self))
          (yielded (events_of (run self files))).
Proof.
  intros [d Hout] Hpaths.
  destruct (outer_loop_order self
              (listing (start files) (PROCESSED_IMAGE_PATH self))
              (ORIGINAL_IMAGE_PATHS self) (start files) Hpaths)
    as (w' & ev & H & _ & L).
  assert (Hrun : run self files = (Ok false, w', ev)).
  { unfold run, generate_processed_copies. fold (start files).
    apply try_ok.
    eapply bind_ok; [apply get_filenames_spec| |reflexivity].
    cbn [fs start]. rewrite Hout. fold (start files).
    eapply bind_ok; [reflexivity| |reflexivity].
    eapply bind_ok; [exact H|reflexivity|]. now rewrite app_nil_r. }
  rewrite Hrun. exact L.
Qed.

Lemma X20_three_files_in_order :
  Forall2 (result_of (pipeline ["/photos"] false))
          [("/photos", "a.tif"); ("/photos", "b.tif"); ("/photos", "c.tif")]
          (yielded (events_of (run (pipeline ["/photos"] false) files_three))).
Proof.
  apply (X20_results_follow_the_files (pipeline ["/photos"] false)
           files_three).
  - vm_compute. eauto.
  - intros p [<-|[]]. split; [discriminate|]. vm_compute. eauto.
Defined.

(** * Properties of the validators *)

Section Validators.
Import custom_validators.

Lemma star_then_eol (cls : list class_item) (s : string) (at_start : bool) :
  match_here [StarOf cls; Eol] at_start s = true <-> accepted cls s.
Proof.
  unfold accepted. revert at_start.
  induction s as [|c s IH]; intros at_start.
  - cbn. split; [now left|reflexivity].
  - change (match_here [StarOf cls; Eol] at_start (String c s))
      with ((in_class cls c && match_here [StarOf cls; Eol] false s)
            || ((String.eqb (String c s) "" || String.eqb (String c s) newline)
                && true)).
    rewrite orb_true_iff, !andb_true_iff, (IH false). cbn [all_in].
    rewrite andb_true_iff. split.
    + intros [[Hc [Hs|(t & -> & Ht)]]|[He _]].
      * now left.
      * right. exists (String c t). split; [reflexivity|].
        cbn [all_in]. now rewrite Hc.
      * right. exists "". split; [|reflexivity].
        apply orb_true_iff in He as [He|He]; [discriminate|].
        now apply String.eqb_eq in He.
    + intros [[Hc Hs]|(t & E & Ht)].
      * left. split; [exact Hc|now left].
      * destruct t as [|c' t]; cbn in E.
        -- right. split; [|reflexivity]. apply orb_true_iff. right.
           rewrite E. apply String.eqb_refl.
        -- injection E as <- ->. cbn [all_in] in Ht.
           apply andb_true_iff in Ht as [Hc Ht].
           left. split; [exact Hc|]. right. now exists t.
Qed.

Lemma re_match_class (cls : list class_item) (s : string) :
  re_match [Bol; StarOf cls; Eol] s = true <-> accepted cls s.
Proof.
  unfold re_match.
  change (match_here [Bol; StarOf cls; Eol] true s)
    with (true && match_here [StarOf cls; Eol] true s).
  cbn [andb]. apply star_then_eol.
Qed.

Lemma re_match_reject (cls : list class_item) (s : string) :
  re_match [Bol; StarOf cls; Eol] s = false <-> ~ accepted cls s.
Proof.
  rewrite <- re_match_class. now destruct (re_match _ s).
Qed.

(** X10: the three pattern validators let a value through exactly when
    it consists of characters of their class, or of such characters
    followed by one newline at the very end: the newline is in none of
    the classes, yet [$] matches before it.  Every other value raises
    ValidationError with the value in the message.  [validate_search]
    returns the value it was given, the other two return nothing. *)
Theorem X10_pattern_validators (value : string) :
  (validate_alphanumplus value = inr tt <-> accepted alphanumplus_class value) /\
  (validate_url value = inr tt <-> accepted url_class value) /\
  (validate_search value = inr value <-> accepted search_class value) /\
  (~ accepted alphanumplus_class value ->
   validate_alphanumplus value = inl (invalid_characters value)) /\
  (~ accepted url_class value ->
   validate_url value = inl (invalid_characters value)) /\
  (~ accepted search_class value ->
   validate_search value = inl (invalid_characters value)) /\
  (forall r, validate_search value = inr r -> r = value) /\
  in_class alphanumplus_class (ascii_of_nat 10) = false /\
  in_class url_class (ascii_of_nat 10) = false /\
  in_class search_class (ascii_of_nat 10) = false.
Proof.
  unfold validate_alphanumplus, validate_url, validate_search.
  repeat split; try reflexivity.
  - rewrite <- re_match_class. now destruct (re_match _ value).
  - rewrite <- re_match_class. now destruct (re_match _ value).
  - rewrite <- re_match_class. now destruct (re_match _ value).
  - rewrite <- re_match_class. now destruct (re_match _ value).
  - rewrite <- re_match_class. now destruct (re_match _ value).
  - rewrite <- re_match_class. now destruct (re_match _ value).
  - intros H. apply re_match_reject in H. now rewrite H.
  - intros H. apply re_match_reject in H. now rewrite H.
  - intros H. apply re_match_reject in H. now rewrite H.
  - intros r. destruct (re_match _ value); cbn; congruence.
Qed.

(** X11: [validate_passwords_different] returns its argument, and only
    for a list of exactly two values whose first is true in Python's sense
    and differs from the second under [==].  A first value that is empty
    is reported as credentials not supplied, also when both are empty;
    for a non-empty old password every different new one passes, the
    empty string included. *)
Theorem X11_passwords_different (value : arg) :
  (validate_passwords_different value = inr value <->
   exists old new,
     value = PyList [old; new] /\ truthy old = true /\ py_eq old new = false) /\
  (forall r, validate_passwords_different value = inr r -> r = value) /\
  (forall new,
     validate_passwords_different (PyList [PyStr ""; new])
     = inl (ValidationError "Credentials were not supplied for validation.")) /\
  (forall old new : string,
     old <> "" ->
     validate_passwords_different (PyList [PyStr old; PyStr new])
     = if String.eqb old new
       then inl (ValidationError "Old and new passwords are identical!")
       else inr (PyList [PyStr old; PyStr new])).
Proof.
  split; [|split; [|split]].
  - split.
    + destruct value as [v|[|old [|new [|x l]]]]; try discriminate. cbn.
      destruct (truthy old) eqn:Ht; [|discriminate].
      destruct (py_eq old new) eqn:He; [discriminate|]. eauto.
    + intros (old & new & -> & Ht & He). cbn. now rewrite Ht, He.
  - intros r. destruct value as [v|[|old [|new [|x l]]]]; try discriminate.
    cbn. destruct (truthy old); [|discriminate].
    destruct (py_eq old new); [discriminate|congruence].
  - reflexivity.
  - intros old new Hold. cbn.
    destruct (String.eqb_spec old "") as [->|_]; [easy|reflexivity].
Qed.

Lemma py_eq_str (s : string) (v : pyval) :
  py_eq v (PyStr s) = true <-> v = PyStr s.
Proof.
  destruct v as [|b|n|s']; cbn; try (split; [discriminate|discriminate]).
  rewrite String.eqb_eq. split; congruence.
Qed.

Lemma py_in_strings (v : pyval) (l : list string) :
  py_in_list v (map PyStr l) = true <-> exists s, v = PyStr s /\ In s l.
Proof.
  unfold py_in_list. rewrite existsb_exists. split.
  - intros (x & Hx & He). apply in_map_iff in Hx as (s & <- & Hs).
    apply py_eq_str in He. eauto.
  - intros (s & -> & Hs). exists (PyStr s). split; [now apply in_map|].
    now apply py_eq_str.
Qed.

(** X12: for the [order_by] query type, [validate] always returns one of
    the eight valid ordering names and never raises: a value of the list
    is returned as it is, every other value (another string, [None], a
    number) gives 'id'.  Validating the result again changes nothing. *)
Theorem X12_order_by_is_always_valid (parse : string -> option Z)
    (value : pyval) :
  exists s,
    validate parse (PyStr order_by) value = inr (PyStr s) /\
    In s valid_order_by_values /\
    (In value (map PyStr valid_order_by_values) -> value = PyStr s) /\
    (~ In value (map PyStr valid_order_by_values) -> s = "id") /\
    validate parse (PyStr order_by) (PyStr s) = inr (PyStr s).
Proof.
  assert (Hv : forall v,
            validate parse (PyStr order_by) v
            = inr (if py_in_list v (map PyStr valid_order_by_values)
                   then v else PyStr "id")) by reflexivity.
  assert (Hs : forall s, In s valid_order_by_values ->
                         validate parse (PyStr order_by) (PyStr s)
                         = inr (PyStr s)).
  { intros s H. rewrite Hv.
    now rewrite (proj2 (py_in_strings (PyStr s) _)) by eauto. }
  destruct (py_in_list value (map PyStr valid_order_by_values)) eqn:E.
  - destruct (proj1 (py_in_strings _ _) E) as (s & -> & Hin).
    exists s. split; [now apply Hs|]. split; [exact Hin|].
    split; [reflexivity|]. split; [|now apply Hs].
    intros H. exfalso. apply H. now apply in_map.
  - exists "id". split; [now rewrite Hv, E|]. split; [now left|].
    split; [|split; [reflexivity|apply Hs; now left]].
    intros H. apply in_map_iff in H as (s & <- & Hs').
    rewrite (proj2 (py_in_strings (PyStr s) _)) in E by eauto. discriminate.
Qed.

(** X13: for the query type 'bool', [validate] returns a boolean or
    raises ValidationError.  A boolean is returned as it is; a string is
    accepted exactly when its lower-cased form is 'true' or 'false' and
    gives [True] exactly for 'true'; [None], numbers and every other
    string raise.  The value returned is a boolean, so the constructor of
    [ProcessImages] takes it as [retag] without falling back to [False]. *)
Theorem X13_bool_is_validated (parse : string -> option Z) (value : pyval) :
  match validate parse (PyStr "bool") value with
  | inr r =>
      exists b,
        r = PyBool b /\
        (value = PyBool b \/
         exists s, value = PyStr s /\
                   lower s = (if b then "true" else "false")) /\
        forall paths out fmt,
          exists self,
            __init__ paths out (PyStr fmt) r = inr self /\ retag self = b
  | inl e =>
      e = ValidationError "This value needs to be True or False!" /\
      (forall b, value <> PyBool b) /\
      (forall s, value = PyStr s -> lower s <> "true" /\ lower s <> "false")
  end.
Proof.
  change (validate parse (PyStr "bool") value)
    with (match value with
          | PyBool _ => inr value
          | PyStr s =>
              if str_in (lower s) ["true"; "false"]
              then inr (PyBool (String.eqb (lower s) "true"))
              else inl (ValidationError "This value needs to be True or False!")
          | _ => inl (ValidationError "This value needs to be True or False!")
          end).
  destruct value as [|b|n|s].
  - split; [reflexivity|]. split; [discriminate|discriminate].
  - exists b. split; [reflexivity|]. split; [now left|].
    intros paths out fmt. eexists. split; reflexivity.
  - split; [reflexivity|]. split; [discriminate|discriminate].
  - unfold str_in. cbn [existsb].
    destruct (String.eqb_spec (lower s) "true") as [Ht|Ht].
    + cbn [orb]. exists true. split; [reflexivity|]. split; [right; eauto|].
      intros paths out fmt. eexists. split; reflexivity.
    + destruct (String.eqb_spec (lower s) "false") as [Hf|Hf]; cbn [orb].
      * exists false. split; [reflexivity|]. split; [right; eauto|].
        intros paths out fmt. eexists. split; reflexivity.
      * split; [reflexivity|]. split; [discriminate|].
        intros s' [= <-]. now split.
Qed.

(** X14: for the query types [page] and [results], [validate] returns an
    integer for every value but [None]: the number the value stands for
    (negative numbers and zero included), or the default, 1 for [page] and
    5 for [results], when a string is not a number.  No ValueError gets
    out; [None] raises TypeError, which the except clause does not
    catch. *)
Theorem X14_page_and_results (parse : string -> option Z) :
  (forall value, value <> PyNone ->
     exists n m,
       validate parse (PyStr page) value = inr (PyInt n) /\
       validate parse (PyStr results) value = inr (PyInt m)) /\
  (forall s n, parse s = Some n ->
     validate parse (PyStr page) (PyStr s) = inr (PyInt n) /\
     validate parse (PyStr results) (PyStr s) = inr (PyInt n)) /\
  (forall s, parse s = None ->
     validate parse (PyStr page) (PyStr s) = inr (PyInt 1) /\
     validate parse (PyStr results) (PyStr s) = inr (PyInt 5)) /\
  (forall n : Z,
     validate parse (PyStr page) (PyInt n) = inr (PyInt n) /\
     validate parse (PyStr results) (PyInt n) = inr (PyInt n)) /\
  validate parse (PyStr page) PyNone = inl TypeError /\
  validate parse (PyStr results) PyNone = inl TypeError.
Proof.
  assert (Hp : forall v, validate parse (PyStr page) v = int_or parse v 1)
    by reflexivity.
  assert (Hr : forall v, validate parse (PyStr results) v = int_or parse v 5)
    by reflexivity.
  repeat split; try reflexivity.
  - intros value Hv. rewrite Hp, Hr. unfold int_or, int.
    destruct value as [|b|n|s]; [easy|eauto|eauto|].
    destruct (parse s); eauto.
  - rewrite Hp. unfold int_or, int. now rewrite H.
  - rewrite Hr. unfold int_or, int. now rewrite H.
  - rewrite Hp. unfold int_or, int. now rewrite H.
  - rewrite Hr. unfold int_or, int. now rewrite H.
Qed.

(** X15: [validate] compares the query type with the class attributes
    [page], [results] and [order_by] but with the literal 'bool', not
    with the class attribute [bool].  Called with that attribute, or with
    any query type other than those four strings, it validates nothing:
    it returns [None] for every value and never raises. *)
Theorem X15_unknown_query_type_returns_None (parse : string -> option Z)
    (value : pyval) :
  validate parse (PyStr bool') value = inr PyNone /\
  forall query_type,
    ~ In query_type (map PyStr [page; results; order_by; "bool"]) ->
    validate parse query_type value = inr PyNone.
Proof.
  split; [reflexivity|]. intros qt Hqt. unfold validate.
  destruct (py_eq qt (PyStr page)) eqn:E1;
    [apply py_eq_str in E1; subst; exfalso; apply Hqt; cbn; tauto|].
  destruct (py_eq qt (PyStr results)) eqn:E2;
    [apply py_eq_str in E2; subst; exfalso; apply Hqt; cbn; tauto|].
  destruct (py_eq qt (PyStr order_by)) eqn:E3;
    [apply py_eq_str in E3; subst; exfalso; apply Hqt; cbn; tauto|].
  destruct (py_eq qt (PyStr "bool")) eqn:E4;
    [apply py_eq_str in E4; subst; exfalso; apply Hqt; cbn; tauto|].
  reflexivity.
Qed.

End Validators.

(** * Properties of the endpoint that stores tags *)

Section AddTagsFacts.
Context {W : Type}.
Variable save : string -> string -> W -> bool * W.
Variable main : pyval -> pyval -> W
                -> (string + option (list views.tag_record)) * W.
Variable parse : string -> option Z.

Lemma add_tags_spec (owner : string) (ok : string -> bool) (l : list string)
    (added : list string) (w : W) :
  exists new,
    (views.add_tags save owner l added w).1 = added ++ new /\
    sublist new l /\
    ((forall tag w', (save tag owner w').1 = ok tag) ->
     new = List.filter ok l).
Proof.
  revert added w. induction l as [|tag l IH]; intros added w.
  - exists []. cbn. rewrite app_nil_r. now repeat split.
  - cbn [views.add_tags]. destruct (save tag owner w) as [b w'] eqn:E.
    destruct (IH (if b then added ++ [tag] else added) w')
      as (new & H & Hsub & Hok).
    destruct b.
    + exists (tag :: new). split; [now rewrite H, <- List.app_assoc|].
      split; [now constructor|]. intros Hsave. cbn [List.filter].
      rewrite <- (Hsave tag w), E. cbn. now rewrite Hok.
    + exists new. split; [exact H|]. split; [now constructor|].
      intros Hsave. cbn [List.filter]. rewrite <- (Hsave tag w), E. cbn.
      now apply Hok.
Qed.

Lemma add_records_spec (owner : string) (ok : string -> bool)
    (records : list views.tag_record) (added : list string) (w : W) :
  exists new,
    (views.add_records save owner records added w).1 = added ++ new /\
    sublist new (List.concat (map views.tags records)) /\
    ((forall tag w', (save tag owner w').1 = ok tag) ->
     new = List.filter ok (List.concat (map views.tags records))).
Proof.
  revert added w. induction records as [|r records IH]; intros added w.
  - exists []. cbn. rewrite app_nil_r. now repeat split.
  - cbn [views.add_records map List.concat].
    destruct (add_tags_spec owner ok (views.tags r) added w)
      as (new1 & H1 & S1 & O1).
    destruct (views.add_tags save owner (views.tags r) added w)
      as [added' w'].
    cbn [fst] in H1. subst added'.
    destruct (IH (added ++ new1) w') as (new2 & H2 & S2 & O2).
    exists (new1 ++ new2). split; [now rewrite H2, <- List.app_assoc|].
    split; [now apply sublist_app|]. intros Hsave.
    now rewrite List.filter_app, <- O1, <- O2.
Qed.

(** X16: [add_tags_to_db] never raises.  The list it returns holds tags
    of the records in their order, repetitions included; a tag whose save
    raises is left out and the tags after it are still saved: when the
    success of a save depends on the tag only, the result is the list of
    all tags with the failing ones removed. *)
Theorem X16_add_tags_to_db_returns_the_saved_tags
    (tags : list views.tag_record) (owner : string) (w : W) :
  let all := List.concat (map views.tags tags) in
  let added := (views.add_tags_to_db save tags owner w).1 in
  sublist added all /\
  forall ok : string -> bool,
    (forall tag w', (save tag owner w').1 = ok tag) ->
    added = List.filter ok all.
Proof.
  intros all added. unfold added, views.add_tags_to_db. split.
  - destruct (add_records_spec owner (fun _ => true) tags [] w)
      as (new & H & S & _).
    now rewrite H.
  - intros ok Hsave.
    destruct (add_records_spec owner ok tags [] w) as (new & H & _ & O).
    rewrite H. now apply O.
Qed.

Lemma validate_bool_param (query_params : gmap string string)
    (name : string) :
  custom_validators.validate parse (PyStr "bool")
    (views.query_param query_params name)
  = match query_params !! name with
    | Some s =>
        if str_in (lower s) ["true"; "false"]
        then inr (PyBool (String.eqb (lower s) "true"))
        else inl (custom_validators.ValidationError
                    "This value needs to be True or False!")
    | None => inl (custom_validators.ValidationError
                     "This value needs to be True or False!")
    end.
Proof. unfold views.query_param. now destruct (query_params !! name). Qed.

(** X17: [AddTags.get] always answers with status 202.  Unless both
    query parameters [reconvert] and [retag] are given as 'true' or
    'false' in any mix of cases, the answer is the validation message and
    nothing else happens: the worker is not started and no tag is
    stored. *)
Theorem X17_get_needs_both_flags (query_params : gmap string string)
    (user : string) (w : W) :
  let invalid name :=
    match query_params !! name with
    | Some s => str_in (lower s) ["true"; "false"] = false
    | None => True
    end in
  (invalid "reconvert" \/ invalid "retag" ->
   views.get save main parse query_params user w
   = (("Validation error: This value needs to be True or False!", 202), w)) /\
  (views.get save main parse query_params user w).1.2 = 202.
Proof.
  intros invalid. unfold invalid, views.get.
  rewrite !validate_bool_param. split.
  - intros [H|H].
    + destruct (query_params !! "reconvert") as [s|]; [|reflexivity].
      now rewrite H.
    + destruct (query_params !! "reconvert") as [s|]; [|reflexivity].
      destruct (str_in (lower s) _); [|reflexivity].
      destruct (query_params !! "retag") as [s'|]; [|reflexivity].
      now rewrite H.
  - destruct (query_params !! "reconvert") as [s|]; [|reflexivity].
    destruct (str_in (lower s) _); [|reflexivity].
    destruct (query_params !! "retag") as [s'|]; [|reflexivity].
    destruct (str_in (lower s') _); [|reflexivity].
    destruct (main _ _ w) as [[text|[[|t l]|]] w']; try reflexivity.
    now destruct (views.add_tags_to_db save (t :: l) user w').
Qed.

End AddTagsFacts.
